(** * wagtail_project: admin API filters, page-tree maintenance commands and
      moderation mail, embedded in Rocq.

    Sources embedded here:
    - [wagtail/admin/api/filters.py]            (module [Filters])
    - [wagtail/management/commands/set_url_paths.py],
      [wagtail/management/commands/move_pages.py] (module [PageTree])
    - [wagtail/admin/mail.py]                    (module [Mail])

    Python exceptions are values of [exn]; a call that may raise returns a
    [result].  Database tables are finite maps from primary key to row.  The
    definitions come first; the modules [FiltersFacts], [PageTreeFacts] and
    [MailFacts] hold what is proved about them. *)

From stdpp Require Import base option list strings gmap fin_maps sorting.
From Stdlib Require Import ZArith Lia.

Local Open Scope string_scope.
Local Open Scope list_scope.
Local Open Scope stdpp_scope.

(** ** Exceptions and results *)

Inductive exn : Type :=
| ValueError (msg : string)
| TypeError (msg : string)
| BadRequestError (msg : string)
| KeyError (key : string)
| AttributeError (msg : string)
| TemplateDoesNotExist (name : string)
| BadHeaderError (msg : string)
| DoesNotExist
| InvalidMoveToDescendant
| NotImplementedError
| RecursionError
| OtherError (msg : string).

Inductive result (A : Type) : Type :=
| Ok (a : A)
| Raise (e : exn).
Arguments Ok {A} a.
Arguments Raise {A} e.

(** The value of a call that returned. *)
Definition to_option {A} (r : result A) : option A :=
  match r with
  | Ok a => Some a
  | Raise _ => None
  end.

(** ** wagtail/admin/api/filters.py *)

Module Filters.

Local Open Scope Z_scope.

(** [request.GET] is a [QueryDict]: the key/value pairs of the query string in
    the order they were given.  A key may occur several times. *)
Definition QueryDict := list (string * string).

(** [key in request.GET] *)
Definition contains (key : string) (q : QueryDict) : bool :=
  bool_decide (key ∈ q.*1).

(** Every value given for [key], in query-string order. *)
Definition getlist (key : string) (q : QueryDict) : list string :=
  (filter (λ kv, kv.1 = key) q).*2.

(** [request.GET[key]]: the last value given for [key]. *)
Definition getitem (key : string) (q : QueryDict) : option string :=
  last (getlist key q).

(** [wagtail.api.v2.utils.parse_boolean] is an argument of the filters: it
    returns a boolean or raises ([ValueError] when the string is not a boolean
    encoding).  The rows of a queryset are of any type [Item] with the column
    the backend filters on. *)

Module HasChildrenFilter.

Definition filter_queryset {Item : Type} (numchild : Item → Z)
    (parse_boolean : string → result bool)
    (GET : QueryDict) (queryset : list Item) : result (list Item) :=
  if contains "has_children" GET then
    match getitem "has_children" GET with
    | None => Raise (KeyError "has_children")
    | Some value =>
    match parse_boolean value with
    | Ok has_children_filter =>
        if has_children_filter
        then Ok (filter (λ p, 0 < numchild p) queryset)
        else Ok (filter (λ p, numchild p = 0) queryset)
    | Raise (ValueError _) =>
        Raise (BadRequestError "has_children must be 'true' or 'false'")
    | Raise e => Raise e
    end
    end
  else Ok queryset.

End HasChildrenFilter.

Module ForExplorerFilter.

Definition filter_queryset {Item : Type} (for_explorer : Item → bool)
    (parse_boolean : string → result bool)
    (GET : QueryDict) (queryset : list Item) : result (list Item) :=
  if contains "for_explorer" GET then
    match getitem "for_explorer" GET with
    | None => Raise (KeyError "for_explorer")
    | Some value =>
    match parse_boolean value with
    | Ok for_explorer_filter =>
        if for_explorer_filter
        then Ok (filter (λ p, for_explorer p = true) queryset)
        else Ok queryset
    | Raise (ValueError _) =>
        Raise (BadRequestError "for_explorer must be 'true' or 'false'")
    | Raise e => Raise e
    end
    end
  else Ok queryset.

End ForExplorerFilter.

(** Modelled from the spec: [parse_boolean] of [wagtail.api.v2.utils] is not
    among the sources.  The spec speaks of truthy and falsy string encodings
    and of values that fail to parse; the error messages of the filters name
    ['true'] and ['false'].  This instance accepts ["true"]/["1"] and
    ["false"]/["0"] and raises [ValueError] otherwise.  It is used to run the
    filters on concrete requests. *)
Definition parse_boolean (value : string) : result bool :=
  if bool_decide (value ∈ ["true"; "1"]) then Ok true
  else if bool_decide (value ∈ ["false"; "0"]) then Ok false
  else Raise (ValueError ("expected 'true' or 'false', got '" +:+ value +:+ "'")).

End Filters.

(** ** wagtail/management/commands/set_url_paths.py and move_pages.py *)

Module PageTree.

Local Open Scope nat_scope.

(** The page model and the tree queries the commands call ([get_root_nodes],
    [get_children], [save], [move]) are not among the sources.  The tree is
    the one the spec describes: rows with a slug and a stored [url_path],
    arranged in a tree by a materialised position.

    A row of the page table.  [path] is the position of the row in the tree:
    one number per level, the root level first, the last number ordering the
    row among its siblings.  The [depth] of a row is the number of steps of
    its [path]. *)
Record Page : Type := mkPage {
  id : Z;
  path : list nat;
  slug : string;
  url_path : string;
}.

Global Instance Page_eq_dec : EqDecision Page.
Proof. solve_decision. Defined.

Definition depth (p : Page) : nat := length (path p).

(** [root.url_path = s] on the in-memory object. *)
Definition set_url_path (p : Page) (s : string) : Page :=
  {| id := id p; path := path p; slug := slug p; url_path := s |}.

(** The page table, by primary key. *)
Abbreviation DB := (gmap Z Page).

Definition rows (db : DB) : list Page := (map_to_list db).*2.

(** [ORDER BY path] *)
Fixpoint path_leb (a b : list nat) : bool :=
  match a, b with
  | [], _ => true
  | _ :: _, [] => false
  | x :: a', y :: b' =>
      if decide (x < y) then true
      else if decide (y < x) then false
      else path_leb a' b'
  end.

Definition path_le (p q : Page) : Prop := path_leb (path p) (path q) = true.

Global Instance path_le_dec : RelDecision path_le.
Proof. intros p q. unfold path_le. apply _. Defined.

(** Modelled from the spec: [Page.get_root_nodes()], the roots of the tree
    ("starting from each root").  The rows of depth 1, ordered by path. *)
Definition get_root_nodes (db : DB) : list Page :=
  merge_sort path_le (filter (λ p, depth p = 1) (rows db)).

(** [p] sits one level below [root] and its path starts with that of
    [root]. *)
Definition is_child_of (root p : Page) : Prop :=
  depth p = S (depth root) ∧ path root `prefix_of` path p.

Global Instance is_child_of_dec root p : Decision (is_child_of root p).
Proof. unfold is_child_of. apply _. Defined.

(** Modelled from the spec: [root.get_children()], the children of a node of
    the tree, ordered by path. *)
Definition get_children (db : DB) (root : Page) : list Page :=
  merge_sort path_le (filter (is_child_of root) (rows db)).

(** Modelled from the spec: [root.save()], which "persists" the object: the
    in-memory object is written to the row of its primary key. *)
Definition save (p : Page) (db : DB) : DB := <[id p := p]> db.

(** [for x in xs: body(x)], threading the table and stopping at the first
    exception. *)
Fixpoint for_each {A S : Type} (body : A → S → result S) (xs : list A) (s : S)
    : result S :=
  match xs with
  | [] => Ok s
  | x :: xs' =>
      match body x s with
      | Ok s' => for_each body xs' s'
      | Raise e => Raise e
      end
  end.

Module set_url_paths.

(** [Command.set_subtree(root, parent)].  [limit] is the depth of recursion
    the interpreter allows; beyond it the call raises [RecursionError]. *)
Fixpoint set_subtree (limit : nat) (root : Page) (parent : option Page)
    (db : DB) : result DB :=
  match limit with
  | O => Raise RecursionError
  | S limit' =>
      let root :=
        match parent with
        | None => set_url_path root "/"
        | Some parent => set_url_path root (url_path parent +:+ slug root +:+ "/")
        end in
      let db := save root db in
      for_each (λ child db, set_subtree limit' child (Some root) db)
               (get_children db root) db
  end.

(** [Command.handle] *)
Definition handle (limit : nat) (db : DB) : result DB :=
  for_each (λ node db, set_subtree limit node None db) (get_root_nodes db) db.

End set_url_paths.

(** *** Moving a page

    [set_path], [last_step], [next_step] and [move_row] are the steps of
    [move] below. *)

Definition set_path (p : Page) (π : list nat) : Page :=
  {| id := id p; path := π; slug := slug p; url_path := url_path p |}.

Definition last_step (p : Page) : nat := default 0 (last (path p)).

Definition next_step (db : DB) (target : Page) : nat :=
  S (max_list (last_step <$> get_children db target)).

Definition move_row (page : Page) (newpath : list nat) (r : Page) : Page :=
  if decide (path page `prefix_of` path r)
  then set_path r (newpath ++ drop (depth page) (path r))
  else r.

Definition new_position (db : DB) (target : Page) : list nat :=
  path target ++ [next_step db target].

(** Modelled from the spec: [page.move(target, pos="last-child")] is not among
    the sources.  The spec says that the command "moves a page (by numeric id)
    to become the last child of another page".  The page keeps its row and
    takes the step after the last child of the target; the rows below it
    follow it.  A page cannot become a child of itself or of a row below it:
    the move then raises.  The [url_path] columns are left as they were. *)
Definition move (page target : Page) (db : DB) : result DB :=
  if decide (path page `prefix_of` path target)
  then Raise InvalidMoveToDescendant
  else Ok (move_row page (new_position db target) <$> db).

Module move_pages.

(** [Command.handle] ([Page.objects.get] raises [DoesNotExist] when no row has
    the id).  The line written to standard output is left out. *)
Definition handle (from_id to_id : Z) (db : DB) : result DB :=
  match db !! from_id with
  | None => Raise DoesNotExist
  | Some from_page =>
      match db !! to_id with
      | None => Raise DoesNotExist
      | Some to_page => move from_page to_page db
      end
  end.

End move_pages.

(** *** Well-formed page tables

    What the tree library maintains: the primary key of a row is its key in
    the table, no path is empty, every row below the root level has its
    parent row, and paths are unique. *)

Definition parent_path (π : list nat) : list nat := take (length π - 1) π.

Definition row_ok (db : DB) (i : Z) (p : Page) : Prop :=
  id p = i ∧ path p ≠ [] ∧
  (1 < depth p → parent_path (path p) ∈ path <$> rows db).

Definition wf (db : DB) : Prop :=
  map_Forall (row_ok db) db ∧ NoDup (path <$> rows db).

Global Instance row_ok_dec db i p : Decision (row_ok db i p).
Proof. unfold row_ok. apply _. Defined.

Global Instance wf_dec db : Decision (wf db).
Proof. unfold wf. apply _. Defined.

(** Two tables with the same rows up to [url_path]. *)
Definition erase (p : Page) : Page := set_url_path p "".

Definition same_shape (db db' : DB) : Prop := erase <$> db' = erase <$> db.

(** [r] is a child of [q] in the tree. *)
Definition child_of (r q : Page) : Prop := ∃ k, path r = path q ++ [k].

(** [r] carries the path of its parent [q], its own slug and a separator. *)
Definition rel_ok (r q : Page) : Prop :=
  url_path r = url_path q +:+ slug r +:+ "/".

(** The state the command establishes: every root has path ["/"], every other
    row has a parent row and carries the parent's path extended by its slug. *)
Definition url_paths_ok (db : DB) : Prop :=
  (∀ i r, db !! i = Some r → depth r = 1 → url_path r = "/") ∧
  (∀ i r, db !! i = Some r → depth r ≠ 1 →
     ∃ j q, db !! j = Some q ∧ child_of r q ∧ rel_ok r q).

(** The same, stated on every pair of a row and a child of it. *)
Definition url_paths_rel (db : DB) : Prop :=
  (∀ i r, db !! i = Some r → depth r = 1 → url_path r = "/") ∧
  (∀ i r j q, db !! i = Some r → db !! j = Some q → child_of r q → rel_ok r q).

(** No row lies deeper than [D] levels. *)
Definition bounded (D : nat) (db : DB) : Prop :=
  map_Forall (λ _ r, depth r ≤ D) db.

Global Instance bounded_dec D db : Decision (bounded D db).
Proof. unfold bounded. apply _. Defined.

(** A small tree with stale paths, to run the commands on. *)
Definition demo : DB :=
  list_to_map [ (1%Z, mkPage 1 [1] "root" "");
                (2%Z, mkPage 2 [1;1] "home" "/stale/");
                (3%Z, mkPage 3 [1;1;1] "about" "");
                (4%Z, mkPage 4 [1;1;2] "blog" "");
                (5%Z, mkPage 5 [1;2] "other" "") ].

(** [demo] after [about] (id 3) has become the last child of [other] (id 5). *)
Definition demo_moved : DB :=
  list_to_map [ (1%Z, mkPage 1 [1] "root" "");
                (2%Z, mkPage 2 [1;1] "home" "/stale/");
                (3%Z, mkPage 3 [1;2;1] "about" "");
                (4%Z, mkPage 4 [1;1;2] "blog" "");
                (5%Z, mkPage 5 [1;2] "other" "") ].

(** The path [set_subtree] assigns to [root]. *)
Definition new_url (root : Page) (parent : option Page) : string :=
  match parent with
  | None => "/"
  | Some parent => url_path parent +:+ slug root +:+ "/"
  end.

(** *** The effect of [set_subtree] on one subtree

    [subtree_post c url db db']: a call on [c] changes nothing but [url_path]
    columns, leaves the rows outside the subtree of [c] alone, gives [c] the
    path [url], and leaves every row below [c] with the path of its parent
    extended by its slug. *)

Definition subtree_post (c : Page) (url : string) (db db' : DB) : Prop :=
  same_shape db db' ∧
  (∀ i r, db !! i = Some r → ¬ path c `prefix_of` path r → db' !! i = Some r) ∧
  db' !! id c = Some (set_url_path c url) ∧
  (∀ i r j q, db' !! i = Some r → db' !! j = Some q →
     path c `prefix_of` path q → child_of r q → rel_ok r q).

Definition step_spec (D n : nat) (step : Page → DB → result DB)
    (urlf : Page → string) : Prop :=
  ∀ c db, wf db → bounded D db → db !! id c = Some c → depth c = n →
    ∃ db', step c db = Ok db' ∧ subtree_post c (urlf c) db db'.

End PageTree.

(** ** wagtail/admin/mail.py *)

Module Mail.

Local Open Scope Z_scope.

(** *** The framework objects the module works on *)

(** A row of the user table. *)
Record User : Type := mkUser {
  pk : Z;
  email : string;
  is_active : bool;
  is_superuser : bool;
  groups : list Z;
}.

Global Instance User_eq_dec : EqDecision User.
Proof. solve_decision. Defined.

(** The settings the module reads.  [None] for
    [WAGTAILADMIN_NOTIFICATION_INCLUDE_SUPERUSERS] means the setting is not
    defined. *)
Record Settings : Type := mkSettings {
  DEFAULT_FROM_EMAIL : string;
  SITE_ROOT_URL : string;
  WAGTAILADMIN_NOTIFICATION_INCLUDE_SUPERUSERS : option bool;
}.

Record ContentType : Type := mkContentType { name : string }.

Record Page : Type := mkPage { page_pk : Z; content_type : ContentType }.

Record Revision : Type := mkRevision { revision_pk : Z; page : Page }.

(** [task.specific]: a group approval task with its groups, or a task of
    another class. *)
Inductive SpecificTask : Type :=
| GroupApprovalTask (task_pk : Z) (task_groups : list Z)
| OtherTask (task_pk : Z).

Record TaskState : Type := mkTaskState {
  task : SpecificTask;
  workflow_state_page : Page;
  comment : string;
}.

(** A workflow state; [requested_by] is taken to be set. *)
Record WorkflowState : Type := mkWorkflowState {
  ws_page : Page;
  workflow : Z;
  requested_by : User;
  current_task_state : TaskState;
}.

(** The sender of a signal: a workflow state, a task state, or an object of
    some other class ([None] included). *)
Inductive Instance : Type :=
| IWorkflowState (workflow_state : WorkflowState)
| ITaskState (task_state : TaskState)
| IOther (class_name : string).

(** [type(instance).__name__] *)
Definition type_name (instance : Instance) : string :=
  match instance with
  | IWorkflowState _ => "WorkflowState"
  | ITaskState _ => "TaskState"
  | IOther class_name => class_name
  end.

(** The keyword arguments of a signal; only [user] is read. *)
Record Kwargs : Type := mkKwargs { user : option User }.

(** Values of a template context. *)
Inductive ctxval : Type :=
| CStr (s : string)
| CSettings (s : Settings)
| CRevision (r : Revision)
| CPage (p : Page)
| CContentType (c : ContentType)
| CWorkflow (w : Z)
| CTask (t : SpecificTask)
| CTaskState (t : TaskState)
| CUser (u : User).

Abbreviation Context := (gmap string ctxval).

(** What a call returns: [None], [True] or [False]. *)
Inductive pyval : Type :=
| PyNone
| PyBool (b : bool).

Definition truthy (v : pyval) : bool :=
  match v with
  | PyNone => false
  | PyBool b => b
  end.

(** *** Mail messages and the outbox *)

(** A recipient as the caller passed it: an address, or a user object. *)
Inductive recipient : Type :=
| Address (address : string)
| UserObject (u : User).

Global Instance recipient_eq_dec : EqDecision recipient.
Proof. solve_decision. Defined.

Record EmailMessage : Type := mkEmailMessage {
  subject : string;
  body : string;
  from_email : string;
  to : list recipient;
  cc : list recipient;
  bcc : list recipient;
  extra_headers : gmap string string;
}.

(** [email.extra_headers = headers] *)
Definition set_extra_headers (m : EmailMessage) (headers : gmap string string)
    : EmailMessage :=
  {| subject := subject m; body := body m; from_email := from_email m;
     to := to m; cc := cc m; bcc := bcc m; extra_headers := headers |}.

(** Values of the keyword arguments handed on to the message constructor. *)
Inductive kwvalue : Type :=
| KwNone
| KwString (s : string)
| KwRecipients (l : list recipient)
| KwHeaders (h : gmap string string)
| KwObject.

(** The keyword parameters of the constructor of
    [django.core.mail.message.EmailMultiAlternatives] besides the four that
    [send_mail] passes by position. *)
Definition email_keywords : list string :=
  ["bcc"; "connection"; "attachments"; "headers"; "alternatives"; "cc"; "reply_to"].

Definition kw_lookup (key : string) (kwargs : list (string * kwvalue))
    : option kwvalue :=
  snd <$> find (λ kv, bool_decide (kv.1 = key)) kwargs.

Definition kw_recipients (key : string) (kwargs : list (string * kwvalue))
    : list recipient :=
  match kw_lookup key kwargs with
  | Some (KwRecipients l) => l
  | _ => []
  end.

Definition kw_headers (kwargs : list (string * kwvalue)) : gmap string string :=
  match kw_lookup "headers" kwargs with
  | Some (KwHeaders h) => h
  | _ => ∅
  end.

(** [from_email or settings.DEFAULT_FROM_EMAIL]: the sender of a message is
    the default sender when [from_email] is [None] or empty. *)
Definition from_email_or (from_email : option string)
    (default_from_email : string) : string :=
  match from_email with
  | None => default_from_email
  | Some "" => default_from_email
  | Some from_email => from_email
  end.

(** [EmailMultiAlternatives(subject, body, from_email, to, **kwargs)]: a
    keyword the constructor does not have is a [TypeError]; the sender is
    [from_email or settings.DEFAULT_FROM_EMAIL]. *)
Definition EmailMultiAlternatives (default_from_email : string)
    (subject body : string) (from_email : option string)
    (to : list recipient) (kwargs : list (string * kwvalue))
    : result EmailMessage :=
  match find (λ kv, bool_decide (kv.1 ∉ email_keywords)) kwargs with
  | Some (key, _) =>
      Raise (TypeError ("__init__() got an unexpected keyword argument '"
                        +:+ key +:+ "'"))
  | None =>
      Ok {| subject := subject; body := body;
            from_email := from_email_or from_email default_from_email;
            to := to; cc := kw_recipients "cc" kwargs;
            bcc := kw_recipients "bcc" kwargs;
            extra_headers := kw_headers kwargs |}
  end.

(** The messages the mail backend has accepted so far. *)
Abbreviation Outbox := (list EmailMessage).

(** Computations that send mail and may raise. *)
Definition M (A : Type) : Type := Outbox → result A * Outbox.

Global Instance M_ret : MRet M := λ A a outbox, (Ok a, outbox).

Global Instance M_bind : MBind M := λ A B f m outbox,
  match m outbox with
  | (Ok a, outbox') => f a outbox'
  | (Raise e, outbox') => (Raise e, outbox')
  end.

Definition lift {A} (r : result A) : M A := λ outbox, (r, outbox).

Definition raise {A} (e : exn) : M A := lift (Raise e).

(** [email.recipients()]: the entries of [to], [cc] and [bcc] that are not
    empty. *)
Definition recipients (m : EmailMessage) : list recipient :=
  filter (λ r, r ≠ Address "") (to m ++ cc m ++ bcc m).

(** [email.send()]: nothing is sent to nobody; otherwise the message is
    built and handed to the backend, [deliver], which accepts it or raises
    (a header of several lines is a [BadHeaderError]; the transport may
    fail).  A message that is refused is not sent.  Returns the number of
    messages sent. *)
Definition send (deliver : EmailMessage → result unit) (m : EmailMessage)
    : M nat := λ outbox,
  match recipients m with
  | [] => (Ok 0%nat, outbox)
  | _ :: _ =>
      match deliver m with
      | Ok _ => (Ok 1%nat, outbox ++ [m])
      | Raise e => (Raise e, outbox)
      end
  end.

(** Whether a header value has more than one line. *)
Fixpoint multi_line (s : string) : bool :=
  match s with
  | EmptyString => false
  | String a s' =>
      Nat.eqb (Ascii.nat_of_ascii a) 10 || Nat.eqb (Ascii.nat_of_ascii a) 13
      || multi_line s'
  end.

(** [d[key]] on a dict of template names. *)
Definition dict_getitem (d : gmap string string) (key : string) : result string :=
  match d !! key with
  | Some v => Ok v
  | None => Raise (KeyError key)
  end.

(** What the module takes from its surroundings: the settings, the rows of
    the user table ([get_user_model().objects]), the template engine,
    [str.strip], the helpers of the packages that are not embedded here
    ([camelcase_to_underscore], [users_with_page_permission], and the switch
    [<notification>_notifications] on the profile of a user,
    [UserProfile.get_for_user]), and the mail backend, [deliver], which
    accepts a message or raises. *)
Record Env : Type := mkEnv {
  settings : Settings;
  users : list User;
  render_to_string : string → option Context → result string;
  strip : string → string;
  camelcase_to_underscore : string → string;
  users_with_page_permission : string → Page → option User → list User;
  notification_preference : User → string → bool;
  deliver : EmailMessage → result unit;
}.

(** [send_mail(subject, message, recipient_list, from_email=None, **kwargs)] *)
Definition send_mail (env : Env) (subject message : string)
    (recipient_list : list recipient) (from_email : option string)
    (kwargs : list (string * kwvalue)) : M pyval :=
  let from_email :=
    match from_email with
    | None => DEFAULT_FROM_EMAIL (settings env)
    | Some from_email => from_email
    end in
  email ← lift (EmailMultiAlternatives (DEFAULT_FROM_EMAIL (settings env))
                  subject message (Some from_email) recipient_list kwargs);
  let email := set_extra_headers email {[ "Auto-Submitted" := "auto-generated" ]} in
  send (deliver env) email;;
  mret PyNone.

(** [send_notification(recipient_users, notification, extra_context)] *)
Definition send_notification (env : Env) (recipient_users : list User)
    (notification : string) (extra_context : Context) : M pyval :=
  let recipient_emails :=
    email <$> filter (λ user, email user ≠ "") recipient_users in
  match recipient_emails with
  | [] => mret PyNone
  | _ :: _ =>
      let template_name :=
        "wagtailadmin/notifications/" +:+ notification +:+ ".txt" in
      subject ← lift (render_to_string env
        ("wagtailadmin/notifications/" +:+ notification +:+ ".subject.txt") None);
      let subject := strip env subject in
      let context : Context :=
        extra_context ∪ {[ "SITE_ROOT_URL" := CStr (SITE_ROOT_URL (settings env)) ]} in
      message ← lift (render_to_string env template_name (Some context));
      send_mail env subject message (Address <$> recipient_emails) None [];;
      mret PyNone
  end.

(** The context [send_moderation_notification] builds for a revision. *)
Definition moderation_context (env : Env) (revision : Revision) : Context :=
  list_to_map [
    ("revision", CRevision revision);
    ("page", CPage (page revision));
    ("content_type", CContentType (content_type (page revision)));
    ("content_type_name", CStr (name (content_type (page revision))));
    ("content_type_name_lower",
       CStr (camelcase_to_underscore env (name (content_type (page revision))))) ].

(** [send_moderation_notification(revision, notification, excluded_user=None)] *)
Definition send_moderation_notification (env : Env) (revision : Revision)
    (notification : string) (excluded_user : option User) : M pyval :=
  recipient_users ← lift (
    if decide (notification = "submitted_for_moderation") then
      Ok (users_with_page_permission env "change" (page revision) excluded_user)
    else if decide (notification = "approved_moderation") then
      Ok (users_with_page_permission env "publish" (page revision) excluded_user)
    else if decide (notification = "rejected_moderation") then
      Ok (users_with_page_permission env "change" (page revision) excluded_user)
    else Raise (ValueError "Unknown notification type"));
  let context := moderation_context env revision in
  send_notification env recipient_users notification context.

(** *** The notifier classes

    An object of a notifier class is the table of its bound methods and class
    attributes: what [self.name] resolves to.  The methods of a class are the
    definitions of the module of its name; where a method reads an attribute
    of [self] that a subclass may override, it takes that attribute as an
    argument. *)
Record NotifierObject : Type := mkNotifierObject {
  notification : string;
  template_directory : string;
  can_handle : Instance → Kwargs → bool;
  get_valid_recipients : Instance → Kwargs → result (list User);
  get_template_base_prefix : Instance → string;
  get_context : Instance → Kwargs → result Context;
  get_template_set : Instance → Kwargs → gmap string string;
  send_notifications :
    gmap string string → Context → list User → Kwargs → M pyval;
}.

(** [isinstance(instance, (WorkflowState,))] and [isinstance(instance,
    (TaskState,))] *)
Definition is_workflow_state (instance : Instance) : bool :=
  match instance with
  | IWorkflowState _ => true
  | _ => false
  end.

Definition is_task_state (instance : Instance) : bool :=
  match instance with
  | ITaskState _ => true
  | _ => false
  end.

(** A method written for a workflow state (a task state) applied to the
    sender of the signal: reading the attributes of the expected class from
    another object raises [AttributeError]. *)
Definition on_workflow_state {A} (method : WorkflowState → Kwargs → A)
    (instance : Instance) (kwargs : Kwargs) : result A :=
  match instance with
  | IWorkflowState workflow_state => Ok (method workflow_state kwargs)
  | _ => Raise (AttributeError (type_name instance))
  end.

Definition on_task_state {A} (method : TaskState → Kwargs → result A)
    (instance : Instance) (kwargs : Kwargs) : result A :=
  match instance with
  | ITaskState task_state => method task_state kwargs
  | _ => Raise (AttributeError (type_name instance))
  end.

(** [requested_by != triggering_user]: model instances are equal when their
    primary keys are; no user equals [None]. *)
Definition user_ne (u : User) (triggering_user : option User) : bool :=
  match triggering_user with
  | None => true
  | Some t => negb (pk u =? pk t)
  end.

(** [queryset.exclude(pk=key)] *)
Definition exclude_pk (key : Z) (queryset : list User) : list User :=
  filter (λ u, pk u ≠ key) queryset.

(** [getattr(settings, "WAGTAILADMIN_NOTIFICATION_INCLUDE_SUPERUSERS", True)] *)
Definition include_superusers_setting (env : Env) : bool :=
  default true (WAGTAILADMIN_NOTIFICATION_INCLUDE_SUPERUSERS (settings env)).

(** [get_user_model().objects.filter(is_superuser=True)] *)
Definition superusers (env : Env) : list User :=
  filter (λ u, is_superuser u = true) (users env).

(** [get_user_model().objects.filter(groups__in=task_groups)] *)
Definition users_in_groups (env : Env) (task_groups : list Z) : list User :=
  filter (λ u, Exists (λ g, g ∈ task_groups) (groups u)) (users env).

Module Notifier.

Definition can_handle (self_valid_classes : Instance → bool)
    (instance : Instance) (kwargs : Kwargs) : bool :=
  self_valid_classes instance.

Definition get_valid_recipients (instance : Instance) (kwargs : Kwargs)
    : result (list User) :=
  Ok [].

Definition get_template_base_prefix (env : Env) (instance : Instance) : string :=
  camelcase_to_underscore env (type_name instance) +:+ "_".

Definition get_context (env : Env) (instance : Instance) (kwargs : Kwargs)
    : Context :=
  {[ "settings" := CSettings (settings env) ]}.

Definition get_template_set (self_notification self_template_directory : string)
    (self_get_template_base_prefix : Instance → string)
    (instance : Instance) (kwargs : Kwargs) : gmap string string :=
  let template_base := self_get_template_base_prefix instance +:+ self_notification in
  let template_text := self_template_directory +:+ template_base +:+ ".txt" in
  {[ "text" := template_text ]}.

Definition send_notifications (template_set : gmap string string)
    (context : Context) (recipients : list User) (kwargs : Kwargs) : M pyval :=
  raise NotImplementedError.

(** [Notifier.__call__(instance=None, **kwargs)] *)
Definition __call__ (self : NotifierObject) (instance : Instance)
    (kwargs : Kwargs) : M pyval :=
  if negb (Mail.can_handle self instance kwargs) then mret (PyBool false)
  else
    recipients ← lift (Mail.get_valid_recipients self instance kwargs);
    match recipients with
    | [] => mret (PyBool true)
    | _ :: _ =>
        let template_set := Mail.get_template_set self instance kwargs in
        context ← lift (Mail.get_context self instance kwargs);
        Mail.send_notifications self template_set context recipients kwargs
    end.

(** [Notifier(valid_classes)] *)
Definition new (env : Env) (valid_classes : Instance → bool) : NotifierObject :=
  {| Mail.notification := "";
     Mail.template_directory := "wagtailadmin/notifications/";
     Mail.can_handle := can_handle valid_classes;
     Mail.get_valid_recipients := get_valid_recipients;
     Mail.get_template_base_prefix := get_template_base_prefix env;
     Mail.get_context := λ instance kwargs, Ok (get_context env instance kwargs);
     Mail.get_template_set :=
       get_template_set "" "wagtailadmin/notifications/"
                        (get_template_base_prefix env);
     Mail.send_notifications := send_notifications |}.

End Notifier.

Module EmailNotificationMixin.

Definition get_recipient_users (instance : Instance) (kwargs : Kwargs)
    : result (list User) :=
  Ok [].

(** The set comprehension of [get_valid_recipients], over the users that
    [self.get_recipient_users(instance, **kwargs)] returns. *)
Definition get_valid_recipients (env : Env) (self_notification : string)
    (self_get_recipient_users : Instance → Kwargs → result (list User))
    (instance : Instance) (kwargs : Kwargs) : result (list User) :=
  match self_get_recipient_users instance kwargs with
  | Ok recipient_users =>
      Ok (remove_dups
            (filter (λ recipient,
                       is_active recipient = true ∧
                       email recipient ≠ "" ∧
                       notification_preference env recipient
                         (self_notification +:+ "_notifications") = true)
                    recipient_users))
  | Raise e => Raise e
  end.

Definition get_template_set (self_notification self_template_directory : string)
    (self_get_template_base_prefix : Instance → string)
    (instance : Instance) (kwargs : Kwargs) : gmap string string :=
  let template_base := self_get_template_base_prefix instance +:+ self_notification in
  let template_subject := self_template_directory +:+ template_base +:+ "_subject.txt" in
  let template_text := self_template_directory +:+ template_base +:+ ".txt" in
  let template_html := self_template_directory +:+ template_base +:+ ".html" in
  {[ "subject" := template_subject; "text" := template_text; "html" := template_html ]}.

Definition send_emails (env : Env) (template_set : gmap string string)
    (context : Context) (recipients : list User) (kwargs : Kwargs) : M pyval :=
  subject_template ← lift (dict_getitem template_set "subject");
  subject ← lift (render_to_string env subject_template (Some context));
  let subject := strip env subject in
  text_template ← lift (dict_getitem template_set "text");
  text ← lift (render_to_string env text_template (Some context));
  html ← match template_set !! "html" with
         | Some html_template =>
             html ← lift (render_to_string env html_template (Some context));
             mret (KwString html)
         | None => mret KwNone
         end;
  send_mail env subject text (UserObject <$> recipients) None
            [("html_message", html)];;
  mret PyNone.

Definition send_notifications (env : Env) (template_set : gmap string string)
    (context : Context) (recipients : list User) (kwargs : Kwargs) : M pyval :=
  send_emails env template_set context recipients kwargs.

(** An object of a class that inherits from [EmailNotificationMixin] and
    [Notifier], in that order, with the attributes and methods the class
    itself defines. *)
Definition new (env : Env) (self_notification : string)
    (self_can_handle : Instance → Kwargs → bool)
    (self_get_recipient_users : Instance → Kwargs → result (list User))
    (self_get_context : Instance → Kwargs → result Context) : NotifierObject :=
  {| Mail.notification := self_notification;
     Mail.template_directory := "wagtailadmin/notifications/";
     Mail.can_handle := self_can_handle;
     Mail.get_valid_recipients :=
       get_valid_recipients env self_notification self_get_recipient_users;
     Mail.get_template_base_prefix := Notifier.get_template_base_prefix env;
     Mail.get_context := self_get_context;
     Mail.get_template_set :=
       get_template_set self_notification "wagtailadmin/notifications/"
                        (Notifier.get_template_base_prefix env);
     Mail.send_notifications := send_notifications env |}.

End EmailNotificationMixin.

Module BaseWorkflowStateEmailNotifier.

Definition get_context (env : Env) (workflow_state : WorkflowState)
    (kwargs : Kwargs) : Context :=
  let context := Notifier.get_context env (IWorkflowState workflow_state) kwargs in
  let context := <["page" := CPage (ws_page workflow_state)]> context in
  let context := <["workflow" := CWorkflow (workflow workflow_state)]> context in
  context.

End BaseWorkflowStateEmailNotifier.

Module WorkflowStateApprovalEmailNotifier.

Definition notification : string := "approved".

Definition get_recipient_users (workflow_state : WorkflowState) (kwargs : Kwargs)
    : list User :=
  let triggering_user := user kwargs in
  let recipients := [] in
  let requested_by := requested_by workflow_state in
  let recipients :=
    if user_ne requested_by triggering_user then [requested_by] else recipients in
  recipients.

(** [WorkflowStateApprovalEmailNotifier()] *)
Definition new (env : Env) : NotifierObject :=
  EmailNotificationMixin.new env notification
    (Notifier.can_handle is_workflow_state)
    (on_workflow_state get_recipient_users)
    (on_workflow_state (BaseWorkflowStateEmailNotifier.get_context env)).

End WorkflowStateApprovalEmailNotifier.

Module WorkflowStateRejectionEmailNotifier.

Definition notification : string := "rejected".

Definition get_recipient_users (workflow_state : WorkflowState) (kwargs : Kwargs)
    : list User :=
  let triggering_user := user kwargs in
  let recipients := [] in
  let requested_by := requested_by workflow_state in
  let recipients :=
    if user_ne requested_by triggering_user then [requested_by] else recipients in
  recipients.

Definition get_context (env : Env) (workflow_state : WorkflowState)
    (kwargs : Kwargs) : Context :=
  let context := BaseWorkflowStateEmailNotifier.get_context env workflow_state kwargs in
  let task_state := current_task_state workflow_state in
  let context := <["task" := CTask (task task_state)]> context in
  let context := <["task_state" := CTaskState task_state]> context in
  let context := <["comment" := CStr (comment task_state)]> context in
  context.

(** [WorkflowStateRejectionEmailNotifier()] *)
Definition new (env : Env) : NotifierObject :=
  EmailNotificationMixin.new env notification
    (Notifier.can_handle is_workflow_state)
    (on_workflow_state get_recipient_users)
    (on_workflow_state (get_context env)).

End WorkflowStateRejectionEmailNotifier.

Module WorkflowStateSubmissionEmailNotifier.

Definition notification : string := "submitted".

(** The queryset that [recipients.exclude(pk=triggering_user.pk)] returns is
    not assigned: the statement leaves [recipients] as it was. *)
Definition get_recipient_users (env : Env) (workflow_state : WorkflowState)
    (kwargs : Kwargs) : list User :=
  let triggering_user := user kwargs in
  let recipients := [] in
  let include_superusers := include_superusers_setting env in
  let recipients := if include_superusers then superusers env else recipients in
  let _ :=
    match triggering_user with
    | Some triggering_user => exclude_pk (pk triggering_user) recipients
    | None => recipients
    end in
  recipients.

Definition get_context (env : Env) (workflow_state : WorkflowState)
    (kwargs : Kwargs) : Context :=
  let context := BaseWorkflowStateEmailNotifier.get_context env workflow_state kwargs in
  let context := <["requested_by" := CUser (requested_by workflow_state)]> context in
  context.

(** [WorkflowStateSubmissionEmailNotifier()] *)
Definition new (env : Env) : NotifierObject :=
  EmailNotificationMixin.new env notification
    (Notifier.can_handle is_workflow_state)
    (on_workflow_state (get_recipient_users env))
    (on_workflow_state (get_context env)).

End WorkflowStateSubmissionEmailNotifier.

Module BaseGroupApprovalTaskStateEmailNotifier.

Definition can_handle (instance : Instance) (kwargs : Kwargs) : bool :=
  if Notifier.can_handle is_task_state instance kwargs
       && match instance with
          | ITaskState task_state =>
              match task task_state with
              | GroupApprovalTask _ _ => true
              | OtherTask _ => false
              end
          | _ => false
          end
  then true
  else false.

Definition get_context (env : Env) (task_state : TaskState) (kwargs : Kwargs)
    : Context :=
  let context := Notifier.get_context env (ITaskState task_state) kwargs in
  let context := <["page" := CPage (workflow_state_page task_state)]> context in
  let context := <["task" := CTask (task task_state)]> context in
  context.

Definition get_recipient_users (env : Env) (task_state : TaskState)
    (kwargs : Kwargs) : result (list User) :=
  let triggering_user := user kwargs in
  match task task_state with
  | OtherTask _ => Raise (AttributeError "groups")
  | GroupApprovalTask _ task_groups =>
      let group_members := users_in_groups env task_groups in
      let recipients := group_members in
      let include_superusers := include_superusers_setting env in
      let recipients :=
        if include_superusers then list_union recipients (superusers env)
        else recipients in
      let recipients :=
        match triggering_user with
        | Some triggering_user => exclude_pk (pk triggering_user) recipients
        | None => recipients
        end in
      Ok recipients
  end.

End BaseGroupApprovalTaskStateEmailNotifier.

Module GroupApprovalTaskStateSubmissionEmailNotifier.

Definition notification : string := "submitted".

(** [GroupApprovalTaskStateSubmissionEmailNotifier()] *)
Definition new (env : Env) : NotifierObject :=
  EmailNotificationMixin.new env notification
    BaseGroupApprovalTaskStateEmailNotifier.can_handle
    (on_task_state (BaseGroupApprovalTaskStateEmailNotifier.get_recipient_users env))
    (on_task_state (λ task_state kwargs,
       Ok (BaseGroupApprovalTaskStateEmailNotifier.get_context env task_state kwargs))).

End GroupApprovalTaskStateSubmissionEmailNotifier.

(** *** A small site, to run the module on *)

Definition demo_settings : Settings :=
  mkSettings "cms@example.com" "http://localhost" None.

Definition admin : User := mkUser 1 "admin@example.com" true true [].
Definition editor : User := mkUser 2 "editor@example.com" true false [7].
Definition silent : User := mkUser 3 "" true false [7].

Definition demo_users : list User := [admin; editor; silent].

Definition demo_page : Page := mkPage 10 (mkContentType "BlogPage").

Definition demo_task_state : TaskState :=
  mkTaskState (GroupApprovalTask 5 [7]) demo_page "".

(** A workflow on [demo_page] that [admin] submitted. *)
Definition demo_workflow_state : WorkflowState :=
  mkWorkflowState demo_page 4 admin demo_task_state.

(** A backend that refuses a message whose subject has several lines. *)
Definition demo_deliver (m : EmailMessage) : result unit :=
  if multi_line (subject m)
  then Raise (BadHeaderError "Header values can't contain newlines")
  else Ok ().

(** A site whose template engine renders every template to its name, where
    every user has every page permission and every notification switched on. *)
Definition demo_env : Env :=
  {| settings := demo_settings;
     users := demo_users;
     render_to_string := λ template_name _, Ok template_name;
     strip := id;
     camelcase_to_underscore := id;
     users_with_page_permission := λ _ _ _, demo_users;
     notification_preference := λ _ _, true;
     deliver := demo_deliver |}.

End Mail.
(** ** The path of a page, written out, and the depth of a subtree *)

Module PageTreeMore.
Import PageTree.

Local Open Scope nat_scope.

(** The slug of the row at position [π] (the empty string when there is no
    such row). *)
Definition slug_at (db : DB) (π : list nat) : string :=
  default "" (slug <$> head (filter (λ r, path r = π) (rows db))).

(** ["/"], then, for every ancestor of the position [π] below the root level
    and for [π] itself, a slug and a ["/"]. *)
Definition expected_url (db : DB) (π : list nat) : string :=
  foldl (λ acc n, acc +:+ slug_at db (take n π) +:+ "/") "/"
        (seq 2 (length π - 1)).

(** The rows at or below [c] lie less than [l] levels below the level of
    [c]. *)
Definition subtree_within (l : nat) (c : Page) (db : DB) : Prop :=
  ∀ i r, db !! i = Some r → path c `prefix_of` path r → depth r < l + depth c.

End PageTreeMore.

(** ** wagtail/admin/mail.py: [OpenedConnection] *)

Module Connection.

Section connection.
(** A mail connection is an object of the mail backend with a state of type
    [Conn]; [connection.open()] and [connection.close()] change the state and
    may raise; [conn_truthy] is [bool(connection)]. *)
Context {Conn : Type}.
Variable conn_open : Conn → result unit * Conn.
Variable conn_close : Conn → result unit * Conn.
Variable conn_truthy : bool.

(** [OpenedConnection.__enter__]: opens the connection and returns it. *)
Definition __enter__ (connection : Conn) : result unit * Conn :=
  conn_open connection.

(** [OpenedConnection.__exit__(type, value, traceback)]: closes the
    connection and returns it; the interpreter reads the returned object as a
    boolean: whether to suppress the exception of the block. *)
Definition __exit__ (exc : option exn) (connection : Conn) : result bool * Conn :=
  match conn_close connection with
  | (Ok _, connection') => (Ok conn_truthy, connection')
  | (Raise e, connection') => (Raise e, connection')
  end.

(** [with OpenedConnection(connection) as c: body(c)].  The block returns
    [Some] of the value of its body, or [None] when the body raised and
    [__exit__] suppressed the exception. *)
Definition with_OpenedConnection {A} (body : Conn → result A * Conn)
    (connection : Conn) : result (option A) * Conn :=
  match __enter__ connection with
  | (Raise e, c1) => (Raise e, c1)
  | (Ok _, c1) =>
      match body c1 with
      | (Ok a, c2) =>
          match __exit__ None c2 with
          | (Ok _, c3) => (Ok (Some a), c3)
          | (Raise e, c3) => (Raise e, c3)
          end
      | (Raise e, c2) =>
          match __exit__ (Some e) c2 with
          | (Ok suppress, c3) => if suppress then (Ok None, c3) else (Raise e, c3)
          | (Raise e', c3) => (Raise e', c3)
          end
      end
  end.
End connection.

(** A connection that counts the messages it was given while open. *)
Record DemoConnection : Type := mkDemoConnection {
  is_open : bool;
  delivered : nat;
}.

Definition demo_open (c : DemoConnection) : result unit * DemoConnection :=
  (Ok (), mkDemoConnection true (delivered c)).

Definition demo_close (c : DemoConnection) : result unit * DemoConnection :=
  (Ok (), mkDemoConnection false (delivered c)).

End Connection.

(** ** Facts about the API filters *)

Module FiltersFacts.
Import Filters.

Local Open Scope Z_scope.

Lemma getitem_Some_contains key GET value :
  getitem key GET = Some value → contains key GET = true.
Proof.
  unfold getitem, getlist, contains. intros H. apply bool_decide_eq_true.
  assert (value ∈ (filter (λ kv : string * string, kv.1 = key) GET).*2) as Hin.
  { by apply last_Some_elem_of. }
  apply list_elem_of_fmap in Hin as ([k v] & -> & [Hk Hin]%list_elem_of_filter).
  simpl in Hk. subst k. apply list_elem_of_fmap. by exists (key, v).
Qed.

Lemma contains_getitem key GET :
  contains key GET = true → ∃ value, getitem key GET = Some value.
Proof.
  unfold getitem, getlist, contains. intros H%bool_decide_eq_true.
  apply list_elem_of_fmap in H as ([k v] & -> & Hin). simpl.
  assert (v ∈ (filter (λ kv : string * string, kv.1 = k) GET).*2) as Hv.
  { apply list_elem_of_fmap. exists (k, v). split; [done|].
    by apply list_elem_of_filter. }
  destruct (last _) as [x|] eqn:E; [eauto|].
  apply last_None in E. rewrite E in Hv. by apply elem_of_nil in Hv.
Qed.

Section filters_facts.
Context {Item : Type}.
Variable numchild : Item → Z.
Variable for_explorer : Item → bool.
Variable parse_boolean : string → result bool.

Local Abbreviation has_children_filter :=
  (HasChildrenFilter.filter_queryset numchild parse_boolean).
Local Abbreviation for_explorer_filter :=
  (ForExplorerFilter.filter_queryset for_explorer parse_boolean).

(** C5.  When the request gives [has_children] a value that parses as true,
    [HasChildrenFilter.filter_queryset] returns the rows of the queryset with
    a child count above zero, and only those; when the value parses as false,
    it returns the rows with child count zero, and only those. *)
Theorem has_children_filter_true_false GET value (queryset : list Item) :
  getitem "has_children" GET = Some value →
  (parse_boolean value = Ok true →
     has_children_filter GET queryset = Ok (filter (λ p, 0 < numchild p) queryset) ∧
     ∀ p, p ∈ filter (λ p, 0 < numchild p) queryset ↔ p ∈ queryset ∧ 0 < numchild p) ∧
  (parse_boolean value = Ok false →
     has_children_filter GET queryset = Ok (filter (λ p, numchild p = 0) queryset) ∧
     ∀ p, p ∈ filter (λ p, numchild p = 0) queryset ↔ p ∈ queryset ∧ numchild p = 0).
Proof.
  clear for_explorer.
  intros Hget. unfold HasChildrenFilter.filter_queryset.
  rewrite (getitem_Some_contains _ _ _ Hget), Hget.
  split; intros ->; (split; [done|]); intros p; rewrite list_elem_of_filter; tauto.
Qed.

(** C6.  When the request gives [has_children] (respectively [for_explorer])
    a value on which [parse_boolean] raises [ValueError], the filter raises
    [BadRequestError] with a message naming the parameter, and returns no
    queryset. *)
Theorem invalid_boolean_bad_request GET value msg (queryset : list Item) :
  parse_boolean value = Raise (ValueError msg) →
  (getitem "has_children" GET = Some value →
     has_children_filter GET queryset =
       Raise (BadRequestError "has_children must be 'true' or 'false'")) ∧
  (getitem "for_explorer" GET = Some value →
     for_explorer_filter GET queryset =
       Raise (BadRequestError "for_explorer must be 'true' or 'false'")).
Proof.
  intros Hparse. split; intros Hget.
  - unfold HasChildrenFilter.filter_queryset.
    by rewrite (getitem_Some_contains _ _ _ Hget), Hget, Hparse.
  - unfold ForExplorerFilter.filter_queryset.
    by rewrite (getitem_Some_contains _ _ _ Hget), Hget, Hparse.
Qed.

(** C10.  [ForExplorerFilter.filter_queryset] returns the queryset as it is
    when [for_explorer] is absent from the request and when its value parses
    as false; [HasChildrenFilter.filter_queryset] returns the queryset as it
    is when [has_children] is absent. *)
Theorem filters_leave_queryset GET (queryset : list Item) :
  (contains "for_explorer" GET = false →
     for_explorer_filter GET queryset = Ok queryset) ∧
  (∀ value, getitem "for_explorer" GET = Some value →
     parse_boolean value = Ok false →
     for_explorer_filter GET queryset = Ok queryset) ∧
  (contains "has_children" GET = false →
     has_children_filter GET queryset = Ok queryset).
Proof.
  split; [|split].
  - intros H. unfold ForExplorerFilter.filter_queryset. by rewrite H.
  - intros value Hget Hparse. unfold ForExplorerFilter.filter_queryset.
    by rewrite (getitem_Some_contains _ _ _ Hget), Hget, Hparse.
  - intros H. unfold HasChildrenFilter.filter_queryset. by rewrite H.
Qed.

End filters_facts.

(** Concrete requests: rows are pairs of a child count and an explorer flag. *)

Lemma has_children_filter_true_false_witness :
  let qs : list (Z * bool) := [(2, true); (0, false); (1, false)] in
  (getitem "has_children" [("has_children", "true")] = Some "true" ∧
   parse_boolean "true" = Ok true ∧
   HasChildrenFilter.filter_queryset fst parse_boolean [("has_children", "true")] qs
     = Ok [(2, true); (1, false)]) ∧
  (getitem "has_children" [("has_children", "1"); ("has_children", "0")] = Some "0" ∧
   parse_boolean "0" = Ok false ∧
   HasChildrenFilter.filter_queryset fst parse_boolean
     [("has_children", "1"); ("has_children", "0")] qs = Ok [(0, false)]).
Proof.
  intros qs. split.
  - split; [reflexivity|]. split; [reflexivity|].
    destruct (has_children_filter_true_false fst parse_boolean
                [("has_children", "true")] "true" qs eq_refl) as [Ht _].
    destruct (Ht eq_refl) as [-> _]. reflexivity.
  - split; [reflexivity|]. split; [reflexivity|].
    destruct (has_children_filter_true_false fst parse_boolean
                [("has_children", "1"); ("has_children", "0")] "0" qs eq_refl)
      as [_ Hf].
    destruct (Hf eq_refl) as [-> _]. reflexivity.
Defined.

Lemma invalid_boolean_bad_request_witness :
  let qs : list (Z * bool) := [(2, true); (0, false)] in
  parse_boolean "yes" = Raise (ValueError "expected 'true' or 'false', got 'yes'") ∧
  getitem "has_children" [("has_children", "yes")] = Some "yes" ∧
  getitem "for_explorer" [("for_explorer", "yes")] = Some "yes" ∧
  HasChildrenFilter.filter_queryset fst parse_boolean [("has_children", "yes")] qs
    = Raise (BadRequestError "has_children must be 'true' or 'false'") ∧
  ForExplorerFilter.filter_queryset snd parse_boolean [("for_explorer", "yes")] qs
    = Raise (BadRequestError "for_explorer must be 'true' or 'false'").
Proof.
  intros qs. split; [reflexivity|]. split; [reflexivity|]. split; [reflexivity|].
  split.
  - exact (proj1 (invalid_boolean_bad_request fst snd parse_boolean
                    [("has_children", "yes")] "yes" _ qs eq_refl) eq_refl).
  - exact (proj2 (invalid_boolean_bad_request fst snd parse_boolean
                    [("for_explorer", "yes")] "yes" _ qs eq_refl) eq_refl).
Defined.

Lemma filters_leave_queryset_witness :
  let qs : list (Z * bool) := [(2, true); (0, false)] in
  (contains "for_explorer" [("has_children", "true")] = false ∧
   ForExplorerFilter.filter_queryset snd parse_boolean [("has_children", "true")] qs = Ok qs) ∧
  (getitem "for_explorer" [("for_explorer", "false")] = Some "false" ∧
   parse_boolean "false" = Ok false ∧
   ForExplorerFilter.filter_queryset snd parse_boolean [("for_explorer", "false")] qs = Ok qs) ∧
  (contains "has_children" [("for_explorer", "true")] = false ∧
   HasChildrenFilter.filter_queryset fst parse_boolean [("for_explorer", "true")] qs = Ok qs).
Proof.
  intros qs. split; [|split].
  - split; [reflexivity|].
    exact (proj1 (filters_leave_queryset fst snd parse_boolean
                    [("has_children", "true")] qs) eq_refl).
  - split; [reflexivity|]. split; [reflexivity|].
    exact (proj1 (proj2 (filters_leave_queryset fst snd parse_boolean
                           [("for_explorer", "false")] qs)) "false" eq_refl eq_refl).
  - split; [reflexivity|].
    exact (proj2 (proj2 (filters_leave_queryset fst snd parse_boolean
                           [("for_explorer", "true")] qs)) eq_refl).
Defined.

End FiltersFacts.
(** ** Facts about the page-tree commands *)

Module PageTreeFacts.
Import PageTree.

Local Open Scope nat_scope.

(** *** Basic facts *)

Lemma elem_of_rows (db : DB) p : p ∈ rows db ↔ ∃ i, db !! i = Some p.
Proof.
  unfold rows. rewrite list_elem_of_fmap. split.
  - intros [[i q] [-> Hin]]. exists i. by apply elem_of_map_to_list.
  - intros [i Hi]. exists (i, p). split; [done|]. by apply elem_of_map_to_list.
Qed.

Lemma elem_of_paths (db : DB) π :
  π ∈ path <$> rows db ↔ ∃ i p, db !! i = Some p ∧ path p = π.
Proof.
  rewrite list_elem_of_fmap. split.
  - intros [p [-> [i Hi]%elem_of_rows]]. eauto.
  - intros (i & p & Hi & <-). exists p. split; [done|]. apply elem_of_rows. eauto.
Qed.

Lemma wf_id db i p : wf db → db !! i = Some p → id p = i.
Proof. intros [H _] Hi. by destruct (H i p Hi). Qed.

Lemma wf_path_nonempty db i p : wf db → db !! i = Some p → path p ≠ [].
Proof. intros [H _] Hi. by destruct (H i p Hi) as (_ & ? & _). Qed.

Lemma wf_parent db i p :
  wf db → db !! i = Some p → 1 < depth p →
  ∃ j q, db !! j = Some q ∧ path q = parent_path (path p).
Proof.
  intros [H _] Hi Hd. destruct (H i p Hi) as (_ & _ & Hp).
  by apply elem_of_paths, Hp.
Qed.

Lemma NoDup_fmap_inj {A B} (f : A → B) (l : list A) x y :
  NoDup (f <$> l) → x ∈ l → y ∈ l → f x = f y → x = y.
Proof.
  induction l as [|a l IH]; simpl; [by intros _ ?%elem_of_nil|].
  intros [Hna Hnd]%NoDup_cons [->|Hx]%elem_of_cons [->|Hy]%elem_of_cons Hf; auto.
  - exfalso. apply Hna. rewrite Hf. by apply list_elem_of_fmap_2.
  - exfalso. apply Hna. rewrite <- Hf. by apply list_elem_of_fmap_2.
Qed.

Lemma wf_path_inj db i p j q :
  wf db → db !! i = Some p → db !! j = Some q → path p = path q → p = q.
Proof.
  intros [_ Hnd] Hi Hj Hpq.
  apply (NoDup_fmap_inj path (rows db)); auto; apply elem_of_rows; eauto.
Qed.

Lemma path_erase p : path (erase p) = path p.
Proof. done. Qed.

Lemma paths_erase (db : DB) : path <$> rows (erase <$> db) = path <$> rows db.
Proof.
  unfold rows. rewrite map_to_list_fmap, <- !list_fmap_compose.
  apply list_fmap_ext. by intros _ [i p] _.
Qed.

Lemma same_shape_sym db db' : same_shape db db' → same_shape db' db.
Proof. unfold same_shape. congruence. Qed.

Lemma same_shape_trans db1 db2 db3 :
  same_shape db1 db2 → same_shape db2 db3 → same_shape db1 db3.
Proof. unfold same_shape. congruence. Qed.

Lemma same_shape_lookup db db' i p :
  same_shape db db' → db !! i = Some p →
  ∃ p', db' !! i = Some p' ∧ erase p' = erase p.
Proof.
  intros Hs Hi. assert ((erase <$> db') !! i = Some (erase p)) as H.
  { rewrite Hs, lookup_fmap, Hi. done. }
  rewrite lookup_fmap in H. destruct (db' !! i) as [p'|]; [|done].
  exists p'. split; [done|]. simpl in H. congruence.
Qed.

Lemma erase_eq p p' :
  erase p' = erase p → id p' = id p ∧ path p' = path p ∧ slug p' = slug p.
Proof. destruct p, p'. unfold erase, set_url_path. simpl. by intros [= -> -> ->]. Qed.

Lemma same_shape_paths db db' :
  same_shape db db' → path <$> rows db' = path <$> rows db.
Proof. intros Hs. rewrite <- (paths_erase db'), <- (paths_erase db). by rewrite Hs. Qed.

Lemma same_shape_wf db db' : same_shape db db' → wf db → wf db'.
Proof.
  intros Hs [Hall Hnd]. split.
  - intros i p' Hi.
    destruct (same_shape_lookup db' db i p' (same_shape_sym _ _ Hs) Hi)
      as (p & Hp & He).
    apply erase_eq in He as (Hid & Hpath & _).
    destruct (Hall i p Hp) as (? & ? & Hpar). unfold row_ok, depth in *.
    rewrite (same_shape_paths _ _ Hs), <- Hid, <- Hpath. auto.
  - by rewrite (same_shape_paths _ _ Hs).
Qed.

Lemma parent_path_snoc π k : parent_path (π ++ [k]) = π.
Proof.
  unfold parent_path. rewrite length_app. simpl.
  replace (length π + 1 - 1) with (length π) by lia. apply take_app_length.
Qed.

Lemma is_child_of_iff root p : is_child_of root p ↔ child_of p root.
Proof.
  unfold is_child_of, child_of, depth. split.
  - intros [Hd [suf Hsuf]]. rewrite Hsuf, length_app in Hd.
    destruct suf as [|k [|]]; simpl in Hd; try lia. eauto.
  - intros [k ->]. rewrite length_app. simpl. split; [lia|].
    by apply prefix_app_r.
Qed.

Lemma elem_of_get_children db root c :
  c ∈ get_children db root ↔ (∃ i, db !! i = Some c) ∧ child_of c root.
Proof.
  unfold get_children. rewrite merge_sort_Permutation, list_elem_of_filter.
  rewrite is_child_of_iff, elem_of_rows. tauto.
Qed.

Lemma elem_of_get_root_nodes db c :
  c ∈ get_root_nodes db ↔ (∃ i, db !! i = Some c) ∧ depth c = 1.
Proof.
  unfold get_root_nodes. rewrite merge_sort_Permutation, list_elem_of_filter.
  rewrite elem_of_rows. tauto.
Qed.

Lemma NoDup_rows db : wf db → NoDup (rows db).
Proof. intros [_ H]. by apply NoDup_fmap_1 in H. Qed.

Lemma NoDup_get_children db root : wf db → NoDup (get_children db root).
Proof.
  intros Hwf. unfold get_children. rewrite merge_sort_Permutation.
  by apply NoDup_filter, NoDup_rows.
Qed.

Lemma NoDup_get_root_nodes db : wf db → NoDup (get_root_nodes db).
Proof.
  intros Hwf. unfold get_root_nodes. rewrite merge_sort_Permutation.
  by apply NoDup_filter, NoDup_rows.
Qed.

(** Every non-empty prefix of the path of a row is the path of a row. *)
Lemma wf_ancestor db i p π :
  wf db → db !! i = Some p → π `prefix_of` path p → π ≠ [] →
  ∃ j q, db !! j = Some q ∧ path q = π.
Proof.
  intros Hwf Hi [suf Hsuf] Hne. revert i p Hi Hsuf.
  induction suf as [|k suf IH] using rev_ind; intros i p Hi Hsuf.
  - rewrite app_nil_r in Hsuf. eauto.
  - rewrite app_assoc in Hsuf.
    destruct (wf_parent db i p Hwf Hi) as (j & q & Hj & Hq).
    { unfold depth. rewrite Hsuf, !length_app. simpl.
      destruct π; [done|]. simpl. lia. }
    rewrite Hsuf, parent_path_snoc in Hq. eauto.
Qed.

(** Rows at the same level with different paths head disjoint subtrees. *)
Lemma siblings_disjoint db i c j c2 π :
  wf db → db !! i = Some c → db !! j = Some c2 → depth c = depth c2 →
  path c `prefix_of` π → path c2 `prefix_of` π → c = c2.
Proof.
  intros Hwf Hi Hj Hd H1 H2. apply (wf_path_inj db i c j c2); auto.
  destruct (prefix_weak_total _ _ _ H1 H2) as [H|H].
  - apply prefix_length_eq; [done|]. unfold depth in Hd. lia.
  - symmetry. apply prefix_length_eq; [done|]. unfold depth in Hd. lia.
Qed.

Lemma same_shape_bounded D db db' : same_shape db db' → bounded D db → bounded D db'.
Proof.
  intros Hs Hb i r Hi.
  destruct (same_shape_lookup db' db i r (same_shape_sym _ _ Hs) Hi) as (r0 & H0 & He).
  apply erase_eq in He as (_ & Hp & _). apply Hb in H0.
  unfold depth in *. simpl in *. by rewrite <- Hp.
Qed.

(** If only rows satisfying [P] may have changed, a row of the later table
    that does not satisfy [P] is a row of the earlier one. *)
Lemma frame_back (P : list nat → Prop) db db' i r :
  same_shape db db' →
  (∀ i r, db !! i = Some r → ¬ P (path r) → db' !! i = Some r) →
  db' !! i = Some r → ¬ P (path r) → db !! i = Some r.
Proof.
  intros Hs Hfr Hi HP.
  destruct (same_shape_lookup db' db i r (same_shape_sym _ _ Hs) Hi) as (r0 & H0 & He).
  apply erase_eq in He as (_ & Hp & _).
  assert (db' !! i = Some r0) as H1 by (apply Hfr; [done|by rewrite Hp]).
  congruence.
Qed.

Lemma for_each_spec D n step urlf cs db :
  step_spec D n step urlf →
  wf db → bounded D db → NoDup cs →
  (∀ c, c ∈ cs → db !! id c = Some c ∧ depth c = n) →
  ∃ db', for_each step cs db = Ok db' ∧
    same_shape db db' ∧
    (∀ i r, db !! i = Some r →
       (∀ c, c ∈ cs → ¬ path c `prefix_of` path r) → db' !! i = Some r) ∧
    (∀ c, c ∈ cs → db' !! id c = Some (set_url_path c (urlf c))) ∧
    (∀ c i r j q, c ∈ cs → db' !! i = Some r → db' !! j = Some q →
       path c `prefix_of` path q → child_of r q → rel_ok r q).
Proof.
  intros Hstep. revert db.
  induction cs as [|c cs IH]; intros db Hwf Hb Hnd Hcs.
  { exists db. split; [done|]. split; [done|]. split; [auto|].
    split; intros; exfalso; eapply not_elem_of_nil; eauto. }
  apply NoDup_cons in Hnd as [Hc_notin Hnd].
  destruct (Hcs c) as [Hc Hdc]; [left|].
  destruct (Hstep c db Hwf Hb Hc Hdc) as (db1 & Hrun1 & Hs1 & Hfr1 & Hc1 & Hrel1).
  assert (wf db1) as Hwf1 by eauto using same_shape_wf.
  assert (bounded D db1) as Hb1 by eauto using same_shape_bounded.
  (* the other nodes head subtrees disjoint from that of [c] *)
  assert (∀ c2 π, c2 ∈ cs → path c `prefix_of` π → path c2 `prefix_of` π → False)
    as Hdisj.
  { intros c2 π Hin H1 H2. destruct (Hcs c2) as [Hc2 Hd2]; [by right|].
    assert (c = c2) as -> by
      (eapply (siblings_disjoint db); eauto; congruence).
    done. }
  assert (∀ c2, c2 ∈ cs → db1 !! id c2 = Some c2 ∧ depth c2 = n) as Hcs1.
  { intros c2 Hin. destruct (Hcs c2) as [Hc2 Hd2]; [by right|]. split; [|done].
    apply Hfr1; [done|]. intros Hpre. by apply (Hdisj c2 (path c2)). }
  destruct (IH db1 Hwf1 Hb1 Hnd Hcs1) as (db' & Hrun & Hs2 & Hfr2 & Hc2 & Hrel2).
  exists db'. split; [by simpl; rewrite Hrun1|].
  split; [by eapply same_shape_trans|].
  split; [|split].
  - intros i r Hi Hnot. apply Hfr2.
    + apply Hfr1; [done|]. apply Hnot. by left.
    + intros c2 Hin. apply Hnot. by right.
  - intros c0 [->|Hin]%elem_of_cons; [|by apply Hc2].
    apply Hfr2; [done|]. intros c2 Hin Hpre. simpl in Hpre.
    by apply (Hdisj c2 (path c)).
  - intros c0 i r j q [->|Hin]%elem_of_cons Hi Hj Hpre Hch; [|by eapply Hrel2].
    set (P := λ π : list nat, ∃ c2, c2 ∈ cs ∧ path c2 `prefix_of` π).
    assert (∀ i r, db1 !! i = Some r → ¬ P (path r) → db' !! i = Some r) as Hfr2'.
    { intros i0 r0 H0 HP. apply Hfr2; [done|]. intros c2 Hin Hpre2.
      apply HP. by exists c2. }
    assert (¬ P (path q)) as HPq.
    { intros (c2 & Hin & Hpre2). by apply (Hdisj c2 (path q)). }
    assert (¬ P (path r)) as HPr.
    { intros (c2 & Hin & Hpre2). apply (Hdisj c2 (path r)); [done| |done].
      destruct Hch as [k ->]. by apply prefix_app_r. }
    apply (Hrel1 i r j q); auto; eapply (frame_back P); eauto.
Qed.

Lemma set_subtree_unfold limit root parent db :
  set_url_paths.set_subtree (S limit) root parent db =
  let root' := set_url_path root (new_url root parent) in
  for_each (λ child db, set_url_paths.set_subtree limit child (Some root') db)
           (get_children (save root' db) root') (save root' db).
Proof. by destruct parent. Qed.

Lemma save_same_shape db root url :
  db !! id root = Some root → same_shape db (save (set_url_path root url) db).
Proof.
  intros H. unfold same_shape, save. simpl. rewrite fmap_insert.
  apply insert_id. by rewrite lookup_fmap, H.
Qed.

Lemma set_subtree_spec D limit root parent db :
  wf db → bounded D db → db !! id root = Some root → D < limit + depth root →
  ∃ db', set_url_paths.set_subtree limit root parent db = Ok db' ∧
         subtree_post root (new_url root parent) db db'.
Proof.
  revert root parent db.
  induction limit as [|limit IH]; intros root parent db Hwf Hb Hroot Hlim.
  { apply Hb in Hroot. simpl in *. lia. }
  rewrite set_subtree_unfold. cbv zeta.
  set (root' := set_url_path root (new_url root parent)).
  set (db1 := save root' db).
  assert (same_shape db db1) as Hs1 by by apply save_same_shape.
  assert (wf db1) as Hwf1 by eauto using same_shape_wf.
  assert (bounded D db1) as Hb1 by eauto using same_shape_bounded.
  assert (db1 !! id root = Some root') as Hroot1 by apply lookup_insert_eq.
  assert (∀ c, c ∈ get_children db1 root' → db1 !! id c = Some c ∧ child_of c root)
    as Hkids.
  { intros c [[i Hi] Hch]%elem_of_get_children.
    by rewrite (wf_id db1 i c Hwf1 Hi). }
  destruct (for_each_spec D (S (depth root))
              (λ child db, set_url_paths.set_subtree limit child (Some root') db)
              (λ c, new_url c (Some root'))
              (get_children db1 root') db1)
    as (db' & Hrun & Hs2 & Hfr2 & Hc2 & Hrel2); auto.
  { intros c db0 ? ? ? Hd. apply IH; auto. lia. }
  { by apply NoDup_get_children. }
  { intros c Hc. destruct (Hkids c Hc) as [? [k Hk]]. split; [done|].
    unfold depth. rewrite Hk, length_app. simpl. lia. }
  assert (wf db') as Hwf' by eauto using same_shape_wf.
  exists db'. split; [done|]. split; [by eapply same_shape_trans|].
  split; [|split].
  - intros i r Hi Hnot. apply Hfr2.
    + unfold db1, save. rewrite lookup_insert_ne; [done|].
      simpl. intros <-. apply Hnot. by replace r with root by congruence.
    + intros c Hc Hpre. destruct (Hkids c Hc) as [_ [k Hk]].
      apply Hnot. etrans; [|exact Hpre]. rewrite Hk. by apply prefix_app_r.
  - apply Hfr2; [done|]. intros c Hc Hpre. destruct (Hkids c Hc) as [_ [k Hk]].
    apply prefix_length in Hpre. rewrite Hk, length_app in Hpre. simpl in Hpre. lia.
  - assert (db' !! id root = Some root') as Hroot'.
    { apply Hfr2; [done|]. intros c Hc Hpre. destruct (Hkids c Hc) as [_ [k Hk]].
      apply prefix_length in Hpre. rewrite Hk, length_app in Hpre.
      simpl in Hpre. lia. }
    intros i r j q Hi Hj Hpre Hch.
    destruct (decide (path q = path root)) as [Heq|Hne].
    + assert (q = root') as -> by (eapply (wf_path_inj db'); eauto).
      destruct (same_shape_lookup db' db1 i r (same_shape_sym _ _ Hs2) Hi)
        as (r1 & Hr1 & He).
      apply erase_eq in He as (_ & Hp1 & Hsl1).
      assert (r1 ∈ get_children db1 root') as Hin.
      { apply elem_of_get_children. split; [eauto|].
        destruct Hch as [k Hk]. exists k. simpl. congruence. }
      specialize (Hc2 r1 Hin). rewrite (wf_id db1 i r1 Hwf1 Hr1) in Hc2.
      assert (r = set_url_path r1 (new_url r1 (Some root'))) as -> by congruence.
      done.
    + destruct Hpre as [suf Hsuf]. destruct suf as [|k suf].
      { rewrite app_nil_r in Hsuf. done. }
      destruct (wf_ancestor db' j q (path root ++ [k]) Hwf' Hj)
        as (j' & c' & Hc' & Hpc').
      { exists suf. rewrite Hsuf, <- app_assoc. done. }
      { by destruct (path root). }
      destruct (same_shape_lookup db' db1 j' c' (same_shape_sym _ _ Hs2) Hc')
        as (c1 & Hc1 & He).
      apply erase_eq in He as (_ & Hp1 & _).
      assert (c1 ∈ get_children db1 root') as Hin.
      { apply elem_of_get_children. split; [eauto|].
        exists k. simpl. congruence. }
      apply (Hrel2 c1 i r j q); auto.
      exists suf. rewrite Hp1, Hpc', Hsuf, <- app_assoc. done.
Qed.

(** *** The command *)

Lemma nil_or_snoc {A} (l : list A) : l = [] ∨ ∃ l' x, l = l' ++ [x].
Proof. induction l as [|x l _] using rev_ind; eauto. Qed.

Lemma child_of_parent_path r q : child_of r q → path q = parent_path (path r).
Proof. intros [k ->]. by rewrite parent_path_snoc. Qed.

Lemma url_paths_rel_ok db : wf db → url_paths_rel db → url_paths_ok db.
Proof.
  intros Hwf [Hroot Hrel]. split; [done|]. intros i r Hi Hd.
  pose proof (wf_path_nonempty db i r Hwf Hi) as Hne.
  destruct (wf_parent db i r Hwf Hi) as (j & q & Hj & Hq).
  { unfold depth in *. destruct (path r) as [|? [|]]; simpl in *; [done|done|lia]. }
  assert (child_of r q) as Hch.
  { destruct (nil_or_snoc (path r)) as [? | (π & k & Hk)]; [done|].
    exists k. rewrite Hk, parent_path_snoc in Hq. by rewrite Hq. }
  exists j, q. eauto.
Qed.

Lemma url_paths_ok_rel db : wf db → url_paths_ok db → url_paths_rel db.
Proof.
  intros Hwf [Hroot Hpar]. split; [done|]. intros i r j q Hi Hj Hch.
  destruct (Hpar i r Hi) as (j' & q' & Hj' & Hch' & Hrel).
  { destruct Hch as [k Hk]. unfold depth. rewrite Hk, length_app. simpl.
    pose proof (wf_path_nonempty db j q Hwf Hj). destruct (path q); [done|].
    simpl. lia. }
  assert (q = q') as -> ; [|done].
  eapply (wf_path_inj db); eauto.
  rewrite (child_of_parent_path r q), (child_of_parent_path r q'); done.
Qed.

Lemma set_url_paths_spec limit db :
  wf db → bounded limit db →
  ∃ db', set_url_paths.handle limit db = Ok db' ∧ same_shape db db' ∧ url_paths_rel db'.
Proof.
  intros Hwf Hb.
  assert (∀ c, c ∈ get_root_nodes db → db !! id c = Some c ∧ depth c = 1) as Hroots.
  { intros c [[i Hi] Hd]%elem_of_get_root_nodes.
    by rewrite (wf_id db i c Hwf Hi). }
  destruct (for_each_spec limit 1 (λ node db, set_url_paths.set_subtree limit node None db)
              (λ c, new_url c None) (get_root_nodes db) db)
    as (db' & Hrun & Hs & Hfr & Hc & Hrel); auto.
  { intros c db0 ? ? ? Hd. apply (set_subtree_spec limit); auto. lia. }
  { by apply NoDup_get_root_nodes. }
  assert (wf db') as Hwf' by eauto using same_shape_wf.
  exists db'. split; [done|]. split; [done|]. split.
  - intros i r Hi Hd.
    destruct (same_shape_lookup db' db i r (same_shape_sym _ _ Hs) Hi)
      as (r0 & Hr0 & He).
    apply erase_eq in He as (_ & Hp & _).
    assert (r0 ∈ get_root_nodes db) as Hin.
    { apply elem_of_get_root_nodes. split; [eauto|]. unfold depth in *. congruence. }
    specialize (Hc r0 Hin). rewrite (wf_id db i r0 Hwf Hr0) in Hc.
    by replace r with (set_url_path r0 (new_url r0 None)) by congruence.
  - intros i r j q Hi Hj Hch.
    pose proof (wf_path_nonempty db' j q Hwf' Hj) as Hne.
    destruct (path q) as [|k suf] eqn:Hq; [done|].
    destruct (wf_ancestor db' j q [k] Hwf' Hj) as (j' & c' & Hc' & Hpc'); [|done|].
    { exists suf. by rewrite Hq. }
    destruct (same_shape_lookup db' db j' c' (same_shape_sym _ _ Hs) Hc')
      as (c0 & Hc0 & He).
    apply erase_eq in He as (_ & Hp & _).
    assert (c0 ∈ get_root_nodes db) as Hin.
    { apply elem_of_get_root_nodes. split; [eauto|]. unfold depth. by rewrite Hp, Hpc'. }
    apply (Hrel c0 i r j q); auto. exists suf. by rewrite Hq, Hp, Hpc'.
Qed.

(** On a table that already has its paths, every [save] writes back the row
    it read. *)
Lemma set_url_path_id p : set_url_path p (url_path p) = p.
Proof. by destruct p. Qed.

Lemma for_each_fixed {A S} (body : A → S → result S) xs s :
  (∀ x, x ∈ xs → body x s = Ok s) → for_each body xs s = Ok s.
Proof.
  induction xs as [|x xs IH]; intros H; [done|]. simpl.
  rewrite H by left. apply IH. intros y Hy. apply H. by right.
Qed.

Lemma set_subtree_fixed D limit root parent db :
  wf db → bounded D db → url_paths_rel db →
  db !! id root = Some root → D < limit + depth root →
  url_path root = new_url root parent →
  set_url_paths.set_subtree limit root parent db = Ok db.
Proof.
  intros Hwf Hb [_ Hrel]. revert root parent.
  induction limit as [|limit IH]; intros root parent Hroot Hlim Hurl.
  { apply Hb in Hroot. simpl in *. lia. }
  rewrite set_subtree_unfold. cbv zeta.
  rewrite <- Hurl, set_url_path_id.
  replace (save root db) with db by (symmetry; by apply insert_id).
  apply for_each_fixed. intros c [[i Hi] Hch]%elem_of_get_children.
  pose proof (wf_id db i c Hwf Hi) as <-.
  apply IH; [done| |by eapply Hrel].
  destruct Hch as [k Hk]. unfold depth in *. rewrite Hk, length_app. simpl. lia.
Qed.

Lemma set_url_paths_fixed limit db :
  wf db → bounded limit db → url_paths_rel db → set_url_paths.handle limit db = Ok db.
Proof.
  intros Hwf Hb Hok. apply for_each_fixed.
  intros c [[i Hi] Hd]%elem_of_get_root_nodes.
  pose proof (wf_id db i c Hwf Hi) as <-.
  apply (set_subtree_fixed limit); auto; [lia|].
  destruct Hok as [Hroot _]. simpl. by eapply Hroot.
Qed.

(** *** Moving a subtree keeps the table well formed *)

Lemma rows_fmap (f : Page → Page) (db : DB) : rows (f <$> db) = f <$> rows db.
Proof.
  unfold rows. rewrite map_to_list_fmap, <- !list_fmap_compose.
  apply list_fmap_ext. by intros _ [i p] _.
Qed.

Lemma next_step_gt db target c k :
  db !! id c = Some c → path c = path target ++ [k] → k < next_step db target.
Proof.
  intros Hc Hk. unfold next_step. apply Nat.lt_succ_r, max_list_elem_of_le.
  apply list_elem_of_fmap. exists c. split.
  - unfold last_step. by rewrite Hk, last_snoc.
  - apply elem_of_get_children. split; [eauto|]. by exists k.
Qed.

Section move_wf.
Variable db : DB.
Variable page target : Page.
Variable ip it : Z.
Hypothesis Hwf : wf db.
Hypothesis Hpage : db !! ip = Some page.
Hypothesis Htarget : db !! it = Some target.
Hypothesis Hnot : ¬ path page `prefix_of` path target.

Local Abbreviation newpath := (new_position db target).
Local Abbreviation f := (move_row page (new_position db target)).

Lemma move_row_moved r suf :
  path r = path page ++ suf → path (f r) = newpath ++ suf.
Proof.
  intros Hr. unfold f, move_row. rewrite decide_True by (by exists suf).
  simpl. unfold depth. by rewrite Hr, drop_app_length.
Qed.

Lemma move_row_kept r : ¬ path page `prefix_of` path r → f r = r.
Proof. intros Hr. unfold f, move_row. by rewrite decide_False. Qed.

Lemma id_move_row r : id (f r) = id r.
Proof. unfold f, move_row. by case_decide. Qed.

Lemma slug_move_row r : slug (f r) = slug r.
Proof. unfold f, move_row. by case_decide. Qed.

(** No row of the table lies at or below the new position. *)
Lemma newpath_fresh i r : db !! i = Some r → ¬ newpath `prefix_of` path r.
Proof.
  intros Hi Hpre.
  destruct (wf_ancestor db i r newpath Hwf Hi Hpre) as (j & c & Hj & Hc).
  { unfold newpath. by destruct (path target). }
  pose proof (wf_id db j c Hwf Hj) as <-.
  pose proof (next_step_gt db target c _ Hj Hc). lia.
Qed.

Lemma move_row_path_inj i r j q :
  db !! i = Some r → db !! j = Some q → path (f r) = path (f q) → r = q.
Proof.
  intros Hi Hj Heq.
  destruct (decide (path page `prefix_of` path r)) as [[sr Hr]|Hr];
    destruct (decide (path page `prefix_of` path q)) as [[sq Hq]|Hq].
  - rewrite (move_row_moved r sr Hr), (move_row_moved q sq Hq) in Heq.
    apply app_inv_head in Heq. subst sq.
    eapply (wf_path_inj db); eauto. congruence.
  - rewrite (move_row_moved r sr Hr), (move_row_kept q Hq) in Heq.
    exfalso. apply (newpath_fresh j q Hj). exists sr. done.
  - rewrite (move_row_kept r Hr), (move_row_moved q sq Hq) in Heq.
    exfalso. apply (newpath_fresh i r Hi). exists sq. done.
  - rewrite (move_row_kept r Hr), (move_row_kept q Hq) in Heq.
    eapply (wf_path_inj db); eauto.
Qed.

Lemma move_wf : wf (f <$> db).
Proof.
  split.
  - intros i r1 Hi. apply lookup_fmap_Some in Hi as (r & <- & Hi).
    destruct (Hwf) as [Hall _]. destruct (Hall i r Hi) as (Hid & Hne & _).
    split; [by rewrite id_move_row|].
    destruct (decide (path page `prefix_of` path r)) as [[suf Hr]|Hr].
    + rewrite rows_fmap. unfold depth. rewrite (move_row_moved r suf Hr).
      split; [unfold newpath; by destruct (path target)|]. intros _.
      destruct (nil_or_snoc suf) as [-> | (suf' & x & ->)].
      * rewrite app_nil_r. unfold newpath. rewrite parent_path_snoc.
        apply list_elem_of_fmap. exists (f target). split.
        { by rewrite move_row_kept. }
        apply list_elem_of_fmap_2, elem_of_rows. eauto.
      * rewrite app_assoc, parent_path_snoc.
        destruct (wf_parent db i r Hwf Hi) as (j & q & Hj & Hq).
        { unfold depth. rewrite Hr, !length_app. simpl.
          pose proof (wf_path_nonempty db ip page Hwf Hpage).
          destruct (path page); [done|]. simpl. lia. }
        rewrite Hr, app_assoc, parent_path_snoc in Hq.
        apply list_elem_of_fmap. exists (f q). split.
        { symmetry. by apply move_row_moved. }
        apply list_elem_of_fmap_2, elem_of_rows. eauto.
    + rewrite (move_row_kept r Hr). split; [done|]. intros Hd.
      destruct (wf_parent db i r Hwf Hi Hd) as (j & q & Hj & Hq).
      rewrite rows_fmap. apply list_elem_of_fmap. exists (f q). split.
      { rewrite move_row_kept; [done|]. intros Hpre. apply Hr.
        etrans; [exact Hpre|]. rewrite Hq. apply prefix_take. }
      apply list_elem_of_fmap_2, elem_of_rows. eauto.
  - rewrite rows_fmap, <- list_fmap_compose.
    apply NoDup_fmap_2_strong; [|by apply NoDup_rows].
    intros r q [i Hi]%elem_of_rows [j Hj]%elem_of_rows Heq.
    by eapply move_row_path_inj.
Qed.
End move_wf.

Lemma wf_demo : wf demo.
Proof. apply (bool_decide_unpack _). by vm_compute. Qed.

Lemma bounded_demo : bounded 3 demo.
Proof. apply (bool_decide_unpack _). by vm_compute. Qed.

(** *** The claims about set_url_paths and move_pages *)

(** C3.  On a well-formed page table, with a recursion limit that covers the
    depth of the tree, the set_url_paths command returns; the table it leaves
    differs from the old one in [url_path] columns only; every root row has
    [url_path] ["/"], and every other row has a parent row and its [url_path]
    is the parent's [url_path], then its own slug, then ["/"]. *)
Theorem set_url_paths_correct limit db :
  wf db → bounded limit db →
  ∃ db', set_url_paths.handle limit db = Ok db' ∧ same_shape db db' ∧ url_paths_ok db'.
Proof.
  intros Hwf Hb.
  destruct (set_url_paths_spec limit db Hwf Hb) as (db' & Hrun & Hs & Hok).
  exists db'. split; [done|]. split; [done|].
  apply url_paths_rel_ok; eauto using same_shape_wf.
Qed.

Lemma set_url_paths_correct_witness :
  wf demo ∧ bounded 3 demo ∧
  ∃ db', set_url_paths.handle 3 demo = Ok db' ∧ same_shape demo db' ∧ url_paths_ok db'.
Proof.
  assert (wf demo) as H1 by (apply (bool_decide_unpack _); by vm_compute).
  assert (bounded 3 demo) as H2 by (apply (bool_decide_unpack _); by vm_compute).
  split; [exact H1|]. split; [exact H2|].
  exact (set_url_paths_correct 3 demo H1 H2).
Defined.

(** C2.  Running set_url_paths a second time changes nothing: on a
    well-formed page table the first run returns a table [db1], the second run
    on [db1] returns a table [db2], and every row has the same [url_path] in
    [db2] as in [db1] (indeed [db2] is [db1]). *)
Theorem set_url_paths_idempotent limit db :
  wf db → bounded limit db →
  ∃ db1 db2, set_url_paths.handle limit db = Ok db1 ∧
             set_url_paths.handle limit db1 = Ok db2 ∧
             (∀ i, url_path <$> db2 !! i = url_path <$> db1 !! i) ∧
             db2 = db1.
Proof.
  intros Hwf Hb.
  destruct (set_url_paths_spec limit db Hwf Hb) as (db1 & Hrun & Hs & Hok).
  exists db1, db1. split; [done|]. split; [|done].
  apply set_url_paths_fixed; eauto using same_shape_wf, same_shape_bounded.
Qed.

Lemma set_url_paths_idempotent_witness :
  wf demo ∧ bounded 3 demo ∧
  ∃ db1 db2, set_url_paths.handle 3 demo = Ok db1 ∧
             set_url_paths.handle 3 db1 = Ok db2 ∧
             (∀ i, url_path <$> db2 !! i = url_path <$> db1 !! i) ∧
             db2 = db1.
Proof.
  assert (wf demo) as H1 by (apply (bool_decide_unpack _); by vm_compute).
  assert (bounded 3 demo) as H2 by (apply (bool_decide_unpack _); by vm_compute).
  split; [exact H1|]. split; [exact H2|].
  exact (set_url_paths_idempotent 3 demo H1 H2).
Defined.

(** The effect of move_pages on the two rows it names. *)
Lemma move_pages_inv from_id to_id db db1 :
  move_pages.handle from_id to_id db = Ok db1 →
  ∃ page target,
    db !! from_id = Some page ∧ db !! to_id = Some target ∧
    ¬ path page `prefix_of` path target ∧
    db1 = move_row page (new_position db target) <$> db.
Proof.
  unfold move_pages.handle, move. intros H.
  destruct (db !! from_id) as [page|]; [|done].
  destruct (db !! to_id) as [target|]; [|done].
  case_decide; [done|]. exists page, target. by injection H as <-.
Qed.

(** After move_pages the moved page is the last child of the target: every
    other child of the target sits at a smaller step. *)
Lemma move_pages_last_child from_id to_id db db1 j c p t :
  wf db → move_pages.handle from_id to_id db = Ok db1 →
  db1 !! from_id = Some p → db1 !! to_id = Some t →
  db1 !! j = Some c → j ≠ from_id → child_of c t →
  child_of p t ∧ last_step c < last_step p.
Proof.
  intros Hwf Hmove Hp1 Ht1 Hc1 Hj Hch.
  destruct (move_pages_inv _ _ _ _ Hmove) as (page & target & Hp & Ht & Hnot & ->).
  rewrite lookup_fmap, Hp in Hp1. rewrite lookup_fmap, Ht in Ht1.
  simpl in Hp1, Ht1. injection Hp1 as <-. injection Ht1 as <-.
  apply lookup_fmap_Some in Hc1 as (r & <- & Hr).
  rewrite (move_row_kept db page target target Hnot) in *.
  assert (path (move_row page (new_position db target) page)
          = path target ++ [next_step db target]) as Hpp.
  { rewrite (move_row_moved db page target page []) by by rewrite app_nil_r.
    by rewrite app_nil_r. }
  split; [by exists (next_step db target)|].
  unfold last_step at 2. rewrite Hpp, last_snoc. simpl.
  destruct Hch as [k Hk]. unfold last_step. rewrite Hk, last_snoc. simpl.
  destruct (decide (path page `prefix_of` path r)) as [[suf Hsuf]|Hkept].
  - exfalso. rewrite (move_row_moved db page target r suf Hsuf) in Hk.
    unfold new_position in Hk. rewrite <- app_assoc in Hk.
    apply app_inv_head in Hk. destruct suf; [|by destruct suf].
    rewrite app_nil_r in Hsuf.
    assert (r = page) as -> by (eapply (wf_path_inj db); eauto).
    apply Hj. rewrite <- (wf_id db j page Hwf Hr).
    by rewrite (wf_id db from_id page Hwf Hp).
  - rewrite (move_row_kept db page target r Hkept) in Hk.
    apply (next_step_gt db target r k); [|done].
    by rewrite (wf_id db j r Hwf Hr).
Qed.

Lemma move_pages_returns from_id to_id db page target :
  db !! from_id = Some page → db !! to_id = Some target →
  ¬ path page `prefix_of` path target →
  move_pages.handle from_id to_id db
    = Ok (move_row page (new_position db target) <$> db).
Proof.
  intros Hp Ht Hnot. unfold move_pages.handle, move. rewrite Hp, Ht.
  by rewrite decide_False.
Qed.

Lemma string_not_self_extended (s x : string) : x ≠ "" → s ≠ s +:+ x.
Proof.
  intros Hx. induction s as [|a s IH].
  - intros H. apply Hx. symmetry. exact H.
  - intros H. apply IH. change (String a s = String a (s +:+ x)) in H.
    by injection H.
Qed.

(** C4 (as amended: the target is neither the page nor a row below it).
    When the page with id [from_id] and the target with id [to_id] exist
    and the target is not the page or a row below it, move_pages returns, and
    a run of set_url_paths after it (with a recursion limit that covers the
    depth of the tree) leaves the moved page, with the slug it had, as a child
    of the target, with the target's [url_path], then its own slug, then ["/"]
    as [url_path]. *)
Theorem move_pages_then_set_url_paths from_id to_id db page target :
  wf db → db !! from_id = Some page → db !! to_id = Some target →
  ¬ path page `prefix_of` path target →
  ∃ db1,
    move_pages.handle from_id to_id db = Ok db1 ∧
    ∀ limit, bounded limit db1 →
      ∃ db2 p t,
        set_url_paths.handle limit db1 = Ok db2 ∧
        db2 !! from_id = Some p ∧ db2 !! to_id = Some t ∧
        child_of p t ∧ slug p = slug page ∧
        url_path p = url_path t +:+ slug p +:+ "/".
Proof.
  intros Hwf Hp Ht Hnot. eexists. split; [by apply move_pages_returns|].
  intros limit Hb.
  pose proof (move_wf db page target from_id to_id Hwf Hp Ht Hnot) as Hwf1.
  destruct (set_url_paths_spec limit _ Hwf1 Hb) as (db2 & Hrun & Hs & _ & Hrel).
  pose proof (lookup_fmap (move_row page (new_position db target)) db from_id) as Hp1.
  pose proof (lookup_fmap (move_row page (new_position db target)) db to_id) as Ht1.
  rewrite Hp in Hp1. rewrite Ht in Ht1. simpl in Hp1, Ht1.
  destruct (same_shape_lookup _ _ _ _ Hs Hp1) as (p & Hp2 & [_ [Hpp Hps]]%erase_eq).
  destruct (same_shape_lookup _ _ _ _ Hs Ht1) as (t & Ht2 & [_ [Htp _]]%erase_eq).
  assert (child_of p t) as Hch.
  { exists (next_step db target). rewrite Hpp, Htp.
    rewrite (move_row_kept db page target target Hnot).
    rewrite (move_row_moved db page target page []) by by rewrite app_nil_r.
    by rewrite app_nil_r. }
  exists db2, p, t. split; [done|]. split; [done|]. split; [done|].
  split; [done|]. split.
  - by rewrite Hps, slug_move_row.
  - by eapply Hrel.
Qed.

Lemma move_pages_then_set_url_paths_witness :
  let page := mkPage 3 [1;1;1] "about" "" in
  let target := mkPage 5 [1;2] "other" "" in
  wf demo ∧ demo !! 3%Z = Some page ∧ demo !! 5%Z = Some target ∧
  ¬ path page `prefix_of` path target ∧
  ∃ db1,
    move_pages.handle 3 5 demo = Ok db1 ∧
    ∀ limit, bounded limit db1 →
      ∃ db2 p t,
        set_url_paths.handle limit db1 = Ok db2 ∧
        db2 !! 3%Z = Some p ∧ db2 !! 5%Z = Some t ∧
        child_of p t ∧ slug p = slug page ∧
        url_path p = url_path t +:+ slug p +:+ "/".
Proof.
  intros page target.
  assert (wf demo) as H1 by (apply (bool_decide_unpack _); by vm_compute).
  assert (demo !! 3%Z = Some page) as H2 by reflexivity.
  assert (demo !! 5%Z = Some target) as H3 by reflexivity.
  assert (¬ path page `prefix_of` path target) as H4
    by (apply (bool_decide_unpack _); by vm_compute).
  split; [exact H1|]. split; [exact H2|]. split; [exact H3|]. split; [exact H4|].
  exact (move_pages_then_set_url_paths 3 5 demo page target H1 H2 H3 H4).
Defined.

(** C4, as worded for every page and every target, fails.  On [demo],
    moving page 3 to itself, or page 2 to page 3 below it, raises, so there is
    no table after the two commands in which the equation of the claim holds;
    and for a page that is its own target the equation holds of no row at
    all. *)
Lemma move_pages_any_target_counterexample :
  move_pages.handle 3 3 demo = Raise InvalidMoveToDescendant ∧
  move_pages.handle 2 3 demo = Raise InvalidMoveToDescendant ∧
  ¬ (∃ db1 db2 p t,
       move_pages.handle 3 3 demo = Ok db1 ∧
       set_url_paths.handle 3 db1 = Ok db2 ∧
       db2 !! 3%Z = Some p ∧ db2 !! 3%Z = Some t ∧
       url_path p = url_path t +:+ slug p +:+ "/") ∧
  ¬ (∃ db1 db2 p t,
       move_pages.handle 2 3 demo = Ok db1 ∧
       set_url_paths.handle 3 db1 = Ok db2 ∧
       db2 !! 2%Z = Some p ∧ db2 !! 3%Z = Some t ∧
       url_path p = url_path t +:+ slug p +:+ "/") ∧
  (∀ p : Page, url_path p ≠ url_path p +:+ slug p +:+ "/").
Proof.
  assert (move_pages.handle 3 3 demo = Raise InvalidMoveToDescendant) as H1
    by (by vm_compute).
  assert (move_pages.handle 2 3 demo = Raise InvalidMoveToDescendant) as H2
    by (by vm_compute).
  split; [done|]. split; [done|]. split; [|split].
  - intros (db1 & ? & ? & ? & H & _). congruence.
  - intros (db1 & ? & ? & ? & H & _). congruence.
  - intros p. apply string_not_self_extended. by destruct (slug p).
Qed.

(** On [demo]: the table after the move, and the paths after both commands. *)
Example move_pages_demo : move_pages.handle 3 5 demo = Ok demo_moved.
Proof. by vm_compute. Qed.

Example set_url_paths_demo_moved :
  (λ db, url_path <$> db !! 3%Z) <$> to_option (set_url_paths.handle 3 demo_moved)
  = Some (Some "/other/about/").
Proof. by vm_compute. Qed.

End PageTreeFacts.
(** ** Facts about the mail module *)

Module MailFacts.
Import Mail.

Local Open Scope Z_scope.

Lemma elem_of_exclude_pk key queryset r :
  r ∈ exclude_pk key queryset ↔ pk r ≠ key ∧ r ∈ queryset.
Proof. unfold exclude_pk. by rewrite list_elem_of_filter. Qed.

Lemma user_ne_Some requested_by u :
  user_ne requested_by (Some u) = true → pk requested_by ≠ pk u.
Proof. simpl. intros H%negb_true_iff. by apply Z.eqb_neq. Qed.

(** *** Recipients and the triggering user *)

(** The approval and rejection notifiers leave the triggering user out. *)
Lemma approval_recipients_exclude_actor workflow_state u r :
  r ∈ WorkflowStateApprovalEmailNotifier.get_recipient_users
        workflow_state (mkKwargs (Some u)) →
  pk r ≠ pk u.
Proof.
  unfold WorkflowStateApprovalEmailNotifier.get_recipient_users. cbv zeta.
  destruct (user_ne _ _) eqn:E; [|by intros ?%elem_of_nil].
  intros ->%list_elem_of_singleton. by apply user_ne_Some.
Qed.

Lemma rejection_recipients_exclude_actor workflow_state u r :
  r ∈ WorkflowStateRejectionEmailNotifier.get_recipient_users
        workflow_state (mkKwargs (Some u)) →
  pk r ≠ pk u.
Proof.
  unfold WorkflowStateRejectionEmailNotifier.get_recipient_users. cbv zeta.
  destruct (user_ne _ _) eqn:E; [|by intros ?%elem_of_nil].
  intros ->%list_elem_of_singleton. by apply user_ne_Some.
Qed.

(** So does the group approval notifier, which assigns the queryset that
    [exclude] returns. *)
Lemma group_approval_recipients_exclude_actor env task_state u recipients r :
  BaseGroupApprovalTaskStateEmailNotifier.get_recipient_users env
    task_state (mkKwargs (Some u)) = Ok recipients →
  r ∈ recipients → pk r ≠ pk u.
Proof.
  unfold BaseGroupApprovalTaskStateEmailNotifier.get_recipient_users.
  destruct (task task_state); [|done]. cbv zeta. simpl.
  intros [= <-] [H _]%elem_of_exclude_pk. done.
Qed.

(** The submission notifier returns the superusers whoever triggered it. *)
Lemma submission_recipients env workflow_state kwargs :
  WorkflowStateSubmissionEmailNotifier.get_recipient_users env workflow_state kwargs
  = if include_superusers_setting env then superusers env else [].
Proof. done. Qed.

Lemma submission_recipients_actor env workflow_state u :
  include_superusers_setting env = true →
  u ∈ users env → is_superuser u = true →
  u ∈ WorkflowStateSubmissionEmailNotifier.get_recipient_users env workflow_state
        (mkKwargs (Some u)).
Proof.
  intros Hinc Hu Hsuper. rewrite submission_recipients, Hinc.
  by apply list_elem_of_filter.
Qed.

(** *** Sending *)

Lemma send_outbox deliver m outbox :
  ∃ sent, (send deliver m outbox).2 = outbox ++ sent ∧ Forall (λ m', m' = m) sent.
Proof.
  unfold send. destruct (recipients m); [|destruct (deliver m)].
  - exists []. by rewrite app_nil_r.
  - exists [m]. split; [done|]. by constructor.
  - exists []. by rewrite app_nil_r.
Qed.

(** With the constructor of the framework as it is, [send_emails] never gets
    as far as the backend: the keyword [html_message] that it hands to
    [send_mail] is passed on to the constructor, which does not have it. *)
Lemma send_emails_unexpected_keyword env template_set context recipients kwargs
    outbox :
  ∃ e, EmailNotificationMixin.send_emails env template_set context recipients
         kwargs outbox = (Raise e, outbox).
Proof.
  unfold EmailNotificationMixin.send_emails, mbind, M_bind, lift, mret, M_ret.
  destruct (dict_getitem template_set "subject"); [|eauto].
  destruct (render_to_string _ _ _); [|eauto].
  destruct (dict_getitem template_set "text"); [|eauto].
  destruct (render_to_string _ _ _); [|eauto].
  destruct (template_set !! "html"); [destruct (render_to_string _ _ _)|]; eauto.
Qed.

Lemma call_no_valid_recipients (self : NotifierObject) instance kwargs outbox :
  can_handle self instance kwargs = true →
  get_valid_recipients self instance kwargs = Ok [] →
  Notifier.__call__ self instance kwargs outbox = (Ok (PyBool true), outbox).
Proof. intros Hcan Hnone. unfold Notifier.__call__. by rewrite Hcan, Hnone. Qed.

Lemma filter_nil_all {A} (P : A → Prop) `{∀ x, Decision (P x)} (l : list A) :
  (∀ x, x ∈ l → ¬ P x) → filter P l = [].
Proof.
  induction l as [|x l IH]; intros Hno; [done|].
  rewrite filter_cons_False by (apply Hno; by left).
  apply IH. intros y Hy. apply Hno. by right.
Qed.

(** *** The claims *)

(** C1.  The recipients of a notification are meant to leave out the user who
    triggered it.  [WorkflowStateSubmissionEmailNotifier.get_recipient_users]
    does not: called with the superuser [admin] as [user], it returns [admin]
    among the recipients, and [admin] is the one valid recipient of the
    notifier. *)
Theorem submission_recipients_include_actor :
  admin ∈ WorkflowStateSubmissionEmailNotifier.get_recipient_users
            demo_env demo_workflow_state (mkKwargs (Some admin)) ∧
  get_valid_recipients (WorkflowStateSubmissionEmailNotifier.new demo_env)
    (IWorkflowState demo_workflow_state) (mkKwargs (Some admin)) = Ok [admin].
Proof. split; [|reflexivity]. vm_compute. left. Qed.

(** The group approval notifier on the same site and for the same user. *)
Example group_approval_recipients_demo :
  BaseGroupApprovalTaskStateEmailNotifier.get_recipient_users
    demo_env demo_task_state (mkKwargs (Some admin))
  = Ok [editor; silent].
Proof. reflexivity. Qed.

(** C9.  Whatever the subject, the body, the recipients, the sender and the
    keyword arguments, [send_mail] adds to the outbox only messages whose
    extra headers are [Auto-Submitted: auto-generated]. *)
Theorem send_mail_auto_submitted env subject message recipient_list from_email
    kwargs outbox :
  ∃ sent,
    (send_mail env subject message recipient_list from_email kwargs outbox).2
      = outbox ++ sent ∧
    Forall (λ m, extra_headers m = {[ "Auto-Submitted" := "auto-generated" ]} ∧
                 extra_headers m !! "Auto-Submitted" = Some "auto-generated") sent.
Proof.
  unfold send_mail, mbind, M_bind, lift.
  destruct (EmailMultiAlternatives _ _ _ _ _ _) as [email|e].
  - match goal with |- context [send ?d ?m outbox] =>
      destruct (send_outbox d m outbox) as (sent & Hsent & Hall);
      destruct (send d m outbox) as [[n|e] outbox'] eqn:E
    end; simpl in *; subst outbox'; exists sent; (split; [done|]);
      (eapply Forall_impl; [exact Hall|]); by intros m' ->.
  - exists []. by rewrite app_nil_r.
Qed.

(** A message that [send_mail] does send. *)
Example send_mail_demo :
  send_mail demo_env "Subject" "Body" [Address "editor@example.com"] None
            [("headers", KwHeaders {[ "X-Tag" := "cms" ]})] []
  = (Ok PyNone,
     [ mkEmailMessage "Subject" "Body" "cms@example.com"
         [Address "editor@example.com"] [] []
         {[ "Auto-Submitted" := "auto-generated" ]} ]).
Proof. reflexivity. Qed.

(** C7.  A notifier that can handle the instance and finds no valid recipient
    returns [True] and leaves the outbox as it was; [send_notification] leaves
    the outbox as it was when no recipient user has an email address. *)
Theorem no_recipients_no_message :
  (∀ (self : NotifierObject) instance kwargs outbox,
     can_handle self instance kwargs = true →
     get_valid_recipients self instance kwargs = Ok [] →
     Notifier.__call__ self instance kwargs outbox = (Ok (PyBool true), outbox)) ∧
  (∀ env recipient_users notification extra_context outbox,
     (∀ u, u ∈ recipient_users → email u = "") →
     send_notification env recipient_users notification extra_context outbox
       = (Ok PyNone, outbox)).
Proof.
  split; [exact call_no_valid_recipients|].
  intros env recipient_users notification extra_context outbox Hno.
  unfold send_notification. rewrite filter_nil_all; [done|].
  intros u Hu Hne. by apply Hne, Hno.
Qed.

Lemma no_recipients_no_message_witness :
  let self := WorkflowStateApprovalEmailNotifier.new demo_env in
  let instance := IWorkflowState demo_workflow_state in
  let kwargs := mkKwargs (Some admin) in
  (can_handle self instance kwargs = true ∧
   get_valid_recipients self instance kwargs = Ok [] ∧
   Notifier.__call__ self instance kwargs [] = (Ok (PyBool true), [])) ∧
  ((∀ u, u ∈ [silent] → email u = "") ∧
   send_notification demo_env [silent] "approved_moderation" ∅ []
     = (Ok PyNone, [])).
Proof.
  intros self instance kwargs.
  destruct no_recipients_no_message as [H1 H2].
  assert (∀ u, u ∈ [silent] → email u = "") as Hsilent
    by (by intros u ->%list_elem_of_singleton).
  split.
  - split; [reflexivity|]. split; [reflexivity|].
    exact (H1 self instance kwargs [] eq_refl eq_refl).
  - split; [exact Hsilent|].
    exact (H2 demo_env [silent] "approved_moderation" ∅ [] Hsilent).
Defined.

(** The same for the e-mail notifiers: when every recipient user is inactive,
    has no address or has switched the notification off, nothing is sent. *)
Lemma email_notifier_no_valid_recipients env self_notification self_can_handle
    self_get_recipient_users self_get_context instance kwargs recipient_users
    outbox :
  self_can_handle instance kwargs = true →
  self_get_recipient_users instance kwargs = Ok recipient_users →
  (∀ u, u ∈ recipient_users →
     is_active u = false ∨ email u = "" ∨
     notification_preference env u (self_notification +:+ "_notifications") = false) →
  Notifier.__call__
    (EmailNotificationMixin.new env self_notification self_can_handle
       self_get_recipient_users self_get_context)
    instance kwargs outbox = (Ok (PyBool true), outbox).
Proof.
  intros Hcan Hrec Hnone. apply call_no_valid_recipients; [done|]. simpl.
  unfold EmailNotificationMixin.get_valid_recipients. rewrite Hrec.
  rewrite filter_nil_all; [done|].
  intros u Hu (Ha & He & Hp). destruct (Hnone u Hu) as [H|[H|H]]; congruence.
Qed.

(** C8.  [send_moderation_notification] raises [ValueError] and leaves the
    outbox as it was for every notification name other than the three it
    knows; for [submitted_for_moderation] and [rejected_moderation] it
    notifies the users with the [change] permission on the page, for
    [approved_moderation] the users with the [publish] permission. *)
Theorem send_moderation_notification_dispatch env revision notification
    excluded_user outbox :
  let notify perm name :=
    send_notification env
      (users_with_page_permission env perm (page revision) excluded_user) name
      (moderation_context env revision) outbox in
  (notification ∉ ["submitted_for_moderation"; "approved_moderation";
                   "rejected_moderation"] →
     send_moderation_notification env revision notification excluded_user outbox
       = (Raise (ValueError "Unknown notification type"), outbox)) ∧
  send_moderation_notification env revision "submitted_for_moderation"
    excluded_user outbox = notify "change" "submitted_for_moderation" ∧
  send_moderation_notification env revision "approved_moderation"
    excluded_user outbox = notify "publish" "approved_moderation" ∧
  send_moderation_notification env revision "rejected_moderation"
    excluded_user outbox = notify "change" "rejected_moderation".
Proof.
  cbv zeta. split; [|done].
  intros Hnot. unfold send_moderation_notification.
  rewrite !decide_False; [done|..]; intros ->; apply Hnot; set_solver.
Qed.

Lemma send_moderation_notification_dispatch_witness :
  ("page_deleted" ∉ ["submitted_for_moderation"; "approved_moderation";
                     "rejected_moderation"]) ∧
  send_moderation_notification demo_env (mkRevision 1 demo_page) "page_deleted"
    None []
  = (Raise (ValueError "Unknown notification type"), []).
Proof.
  assert ("page_deleted" ∉ ["submitted_for_moderation"; "approved_moderation";
                            "rejected_moderation"]) as Hnot
    by (apply (bool_decide_unpack _); by vm_compute).
  split; [exact Hnot|].
  exact (proj1 (send_moderation_notification_dispatch demo_env
                  (mkRevision 1 demo_page) "page_deleted" None []) Hnot).
Defined.

(** A moderation notification that is sent: one message, to the users with an
    address, with the header. *)
Example send_moderation_notification_demo :
  send_moderation_notification demo_env (mkRevision 1 demo_page)
    "approved_moderation" None []
  = (Ok PyNone,
     [ mkEmailMessage
         "wagtailadmin/notifications/approved_moderation.subject.txt"
         "wagtailadmin/notifications/approved_moderation.txt"
         "cms@example.com"
         [Address "admin@example.com"; Address "editor@example.com"] [] []
         {[ "Auto-Submitted" := "auto-generated" ]} ]).
Proof. reflexivity. Qed.

End MailFacts.
(** ** More about the API filters *)

Module FiltersProps.
Import Filters.

Local Open Scope Z_scope.

Lemma filter_all {A} (l : list A) : filter (λ _, true = true) l = l.
Proof.
  induction l as [|x l IH]; [done|]. by rewrite filter_cons_True, IH.
Qed.

Section filters_props.
Context {Item : Type}.
Variable numchild : Item → Z.
Variable for_explorer : Item → bool.
Variable parse_boolean : string → result bool.

Local Abbreviation has_children_filter :=
  (HasChildrenFilter.filter_queryset numchild parse_boolean).
Local Abbreviation for_explorer_filter :=
  (ForExplorerFilter.filter_queryset for_explorer parse_boolean).

(** What a request that the backend accepts does to every queryset. *)
Lemma has_children_filter_inv GET (queryset queryset' : list Item) :
  has_children_filter GET queryset = Ok queryset' →
  ∃ keep : Item → bool,
    queryset' = filter (λ p, keep p = true) queryset ∧
    ∀ qs, has_children_filter GET qs = Ok (filter (λ p, keep p = true) qs).
Proof.
  clear for_explorer. unfold HasChildrenFilter.filter_queryset.
  destruct (contains _ _).
  - destruct (getitem _ _) as [value|]; [|done].
    destruct (parse_boolean value) as [[]|[]]; try done; intros [= <-].
    + exists (λ p, bool_decide (0 < numchild p)).
      split; [|intros qs; f_equal]; apply list_filter_iff; intros p;
        by rewrite bool_decide_eq_true.
    + exists (λ p, bool_decide (numchild p = 0)).
      split; [|intros qs; f_equal]; apply list_filter_iff; intros p;
        by rewrite bool_decide_eq_true.
  - intros [= <-]. exists (λ _, true).
    split; [|intros qs]; by rewrite filter_all.
Qed.

Lemma for_explorer_filter_inv GET (queryset queryset' : list Item) :
  for_explorer_filter GET queryset = Ok queryset' →
  ∃ keep : Item → bool,
    queryset' = filter (λ p, keep p = true) queryset ∧
    ∀ qs, for_explorer_filter GET qs = Ok (filter (λ p, keep p = true) qs).
Proof.
  clear numchild. unfold ForExplorerFilter.filter_queryset.
  destruct (contains _ _).
  - destruct (getitem _ _) as [value|]; [|done].
    destruct (parse_boolean value) as [[]|[]]; try done; intros [= <-].
    + exists for_explorer. split; [done|]. by intros qs.
    + exists (λ _, true). split; [|intros qs]; by rewrite filter_all.
  - intros [= <-]. exists (λ _, true).
    split; [|intros qs]; by rewrite filter_all.
Qed.

(** X1.  Whatever the request, a queryset that one of the two backends
    returns is a sublist of the queryset it was given: no row is added,
    repeated or reordered. *)
Theorem filters_return_sublist GET (queryset queryset' : list Item) :
  HasChildrenFilter.filter_queryset numchild parse_boolean
      GET queryset = Ok queryset' ∨
  ForExplorerFilter.filter_queryset for_explorer parse_boolean
      GET queryset = Ok queryset' →
  queryset' `sublist_of` queryset.
Proof.
  intros [H|H].
  - apply has_children_filter_inv in H as (keep & -> & _). apply sublist_filter.
  - apply for_explorer_filter_inv in H as (keep & -> & _). apply sublist_filter.
Qed.

(** X2.  Filtering twice with the same request is the same as filtering
    once. *)
Theorem filters_idempotent GET (queryset queryset' : list Item) :
  (HasChildrenFilter.filter_queryset numchild parse_boolean
      GET queryset = Ok queryset' →
   HasChildrenFilter.filter_queryset numchild parse_boolean
       GET queryset' = Ok queryset') ∧
  (ForExplorerFilter.filter_queryset for_explorer parse_boolean
      GET queryset = Ok queryset' →
   ForExplorerFilter.filter_queryset for_explorer parse_boolean
       GET queryset' = Ok queryset').
Proof.
  split; intros H.
  - apply has_children_filter_inv in H as (keep & -> & Hall).
    rewrite Hall. f_equal. by apply list_filter_filter_l.
  - apply for_explorer_filter_inv in H as (keep & -> & Hall).
    rewrite Hall. f_equal. by apply list_filter_filter_l.
Qed.

(** X3.  The two backends can be applied in either order: when
    [HasChildrenFilter] and then [ForExplorerFilter] return a queryset for a
    request, so do [ForExplorerFilter] and then [HasChildrenFilter], and it is
    the same queryset. *)
Theorem filters_commute GET (queryset q1 q2 : list Item) :
  HasChildrenFilter.filter_queryset numchild parse_boolean
      GET queryset = Ok q1 →
  ForExplorerFilter.filter_queryset for_explorer parse_boolean GET q1 = Ok q2 →
  ∃ q1', ForExplorerFilter.filter_queryset for_explorer parse_boolean
      GET queryset = Ok q1' ∧
         HasChildrenFilter.filter_queryset numchild parse_boolean
             GET q1' = Ok q2.
Proof.
  intros H1 H2.
  apply has_children_filter_inv in H1 as (keep1 & -> & Hall1).
  apply for_explorer_filter_inv in H2 as (keep2 & -> & Hall2).
  eexists. split; [apply Hall2|]. rewrite Hall1. f_equal.
  rewrite !list_filter_filter. apply list_filter_iff. tauto.
Qed.

(** X4.  When a parameter is given several times, the last value decides:
    the backends treat the request like one that carries only that value. *)
Theorem filters_last_value_wins GET value (queryset : list Item) :
  (getitem "has_children" GET = Some value →
   HasChildrenFilter.filter_queryset numchild parse_boolean GET queryset
   = HasChildrenFilter.filter_queryset numchild parse_boolean
       [("has_children", value)] queryset) ∧
  (getitem "for_explorer" GET = Some value →
   ForExplorerFilter.filter_queryset for_explorer parse_boolean GET queryset
   = ForExplorerFilter.filter_queryset for_explorer parse_boolean
       [("for_explorer", value)] queryset).
Proof.
  split; intros Hget.
  - unfold HasChildrenFilter.filter_queryset.
    by rewrite (FiltersFacts.getitem_Some_contains _ _ _ Hget), Hget.
  - unfold ForExplorerFilter.filter_queryset.
    by rewrite (FiltersFacts.getitem_Some_contains _ _ _ Hget), Hget.
Qed.

(** X5.  Branches and leaves: with one value that parses as true and one that
    parses as false, no row is returned for both, every row with a child count
    of zero or more is returned for one of them, and a row with a negative
    child count is returned for neither. *)
Theorem has_children_partition vt vf (queryset : list Item) :
  parse_boolean vt = Ok true → parse_boolean vf = Ok false →
  ∃ branches leaves,
    HasChildrenFilter.filter_queryset numchild parse_boolean
        [("has_children", vt)] queryset = Ok branches ∧
    HasChildrenFilter.filter_queryset numchild parse_boolean
        [("has_children", vf)] queryset = Ok leaves ∧
    (∀ p, ¬ (p ∈ branches ∧ p ∈ leaves)) ∧
    (∀ p, p ∈ queryset → 0 ≤ numchild p → p ∈ branches ∨ p ∈ leaves) ∧
    (∀ p, numchild p < 0 → (p ∉ branches) ∧ (p ∉ leaves)) ∧
    (length branches + length leaves ≤ length queryset)%nat.
Proof.
  clear for_explorer. intros Ht Hf.
  exists (filter (λ p, 0 < numchild p) queryset),
         (filter (λ p, numchild p = 0) queryset).
  split; [by unfold HasChildrenFilter.filter_queryset; simpl; rewrite Ht|].
  split; [by unfold HasChildrenFilter.filter_queryset; simpl; rewrite Hf|].
  split; [|split; [|split]].
  - intros p [[H1 _]%list_elem_of_filter [H2 _]%list_elem_of_filter]. lia.
  - intros p Hp Hn. destruct (decide (numchild p = 0)).
    + right. by apply list_elem_of_filter.
    + left. apply list_elem_of_filter. split; [lia|done].
  - intros p Hn. split; intros [H _]%list_elem_of_filter; lia.
  - induction queryset as [|x l IH]; [done|].
    rewrite !filter_cons. repeat case_decide; simpl; lia.
Qed.

End filters_props.

Lemma filters_return_sublist_witness :
  HasChildrenFilter.filter_queryset fst parse_boolean [("has_children", "1")]
    [(2, true); (0, false); (3, false)] = Ok [(2, true); (3, false)] ∧
  [(2, true); (3, false)] `sublist_of` [(2, true); (0, false); (3, false)].
Proof.
  split; [reflexivity|].
  apply (filters_return_sublist fst snd parse_boolean [("has_children", "1")]).
  left. reflexivity.
Defined.

Lemma filters_idempotent_witness :
  let qs : list (Z * bool) := [(2, true); (0, false); (3, false)] in
  (HasChildrenFilter.filter_queryset fst parse_boolean [("has_children", "1")] qs
     = Ok [(2, true); (3, false)] ∧
   HasChildrenFilter.filter_queryset fst parse_boolean [("has_children", "1")]
     [(2, true); (3, false)] = Ok [(2, true); (3, false)]) ∧
  (ForExplorerFilter.filter_queryset snd parse_boolean [("for_explorer", "1")] qs
     = Ok [(2, true)] ∧
   ForExplorerFilter.filter_queryset snd parse_boolean [("for_explorer", "1")]
     [(2, true)] = Ok [(2, true)]).
Proof.
  intros qs. split; (split; [reflexivity|]).
  - exact (proj1 (filters_idempotent fst snd parse_boolean
                    [("has_children", "1")] qs _) eq_refl).
  - exact (proj2 (filters_idempotent fst snd parse_boolean
                    [("for_explorer", "1")] qs _) eq_refl).
Defined.

Lemma filters_commute_witness :
  let GET := [("has_children", "true"); ("for_explorer", "true")] in
  let qs : list (Z * bool) := [(2, true); (0, true); (3, false)] in
  HasChildrenFilter.filter_queryset fst parse_boolean GET qs
    = Ok [(2, true); (3, false)] ∧
  ForExplorerFilter.filter_queryset snd parse_boolean GET [(2, true); (3, false)]
    = Ok [(2, true)] ∧
  ∃ q1', ForExplorerFilter.filter_queryset snd parse_boolean GET qs = Ok q1' ∧
         HasChildrenFilter.filter_queryset fst parse_boolean GET q1' = Ok [(2, true)].
Proof.
  intros GET qs. split; [reflexivity|]. split; [reflexivity|].
  exact (filters_commute fst snd parse_boolean GET qs _ _ eq_refl eq_refl).
Defined.

Lemma filters_last_value_wins_witness :
  let GET := [("has_children", "true"); ("limit", "20"); ("has_children", "false")] in
  let qs : list (Z * bool) := [(2, true); (0, true); (3, false)] in
  getitem "has_children" GET = Some "false" ∧
  HasChildrenFilter.filter_queryset fst parse_boolean GET qs
  = HasChildrenFilter.filter_queryset fst parse_boolean
      [("has_children", "false")] qs.
Proof.
  intros GET qs. split; [reflexivity|].
  exact (proj1 (filters_last_value_wins fst snd parse_boolean GET "false" qs)
               eq_refl).
Defined.

Lemma has_children_partition_witness :
  let qs : list (Z * bool) := [(2, true); (0, true); (-1, false)] in
  parse_boolean "true" = Ok true ∧ parse_boolean "false" = Ok false ∧
  ∃ branches leaves,
    HasChildrenFilter.filter_queryset fst parse_boolean
      [("has_children", "true")] qs = Ok branches ∧
    HasChildrenFilter.filter_queryset fst parse_boolean
      [("has_children", "false")] qs = Ok leaves ∧
    (∀ p, ¬ (p ∈ branches ∧ p ∈ leaves)) ∧
    (∀ p, p ∈ qs → 0 ≤ p.1 → p ∈ branches ∨ p ∈ leaves) ∧
    (∀ p : Z * bool, p.1 < 0 → (p ∉ branches) ∧ (p ∉ leaves)) ∧
    (length branches + length leaves ≤ length qs)%nat.
Proof.
  intros qs. split; [reflexivity|]. split; [reflexivity|].
  exact (has_children_partition fst parse_boolean "true" "false" qs
           eq_refl eq_refl).
Defined.

End FiltersProps.
(** ** More about set_url_paths *)

Module PageTreeProps.
Import PageTree PageTreeMore PageTreeFacts.

Local Open Scope nat_scope.

(** *** The path written out *)

Lemma slug_at_row db i r : wf db → db !! i = Some r → slug_at db (path r) = slug r.
Proof.
  intros Hwf Hi. unfold slug_at.
  assert (r ∈ filter (λ q, path q = path r) (rows db)) as Hin.
  { apply list_elem_of_filter. split; [done|]. apply elem_of_rows. eauto. }
  destruct (filter _ _) as [|h l] eqn:E; [by apply elem_of_nil in Hin|].
  assert (h ∈ filter (λ q, path q = path r) (rows db)) as Hh by (rewrite E; left).
  apply list_elem_of_filter in Hh as [Hp [j Hj]%elem_of_rows].
  simpl. f_equal. by eapply (wf_path_inj db).
Qed.

Lemma slug_at_erase_rows (l : list Page) π :
  slug <$> head (filter (λ r, path r = π) (erase <$> l))
  = slug <$> head (filter (λ r, path r = π) l).
Proof.
  induction l as [|x l IH]; [done|]. rewrite fmap_cons, !filter_cons. simpl.
  by destruct (decide (path x = π)).
Qed.

Lemma slug_at_same_shape db db' π : same_shape db db' → slug_at db' π = slug_at db π.
Proof.
  intros Hs. unfold slug_at.
  rewrite <- (slug_at_erase_rows (rows db')), <- (slug_at_erase_rows (rows db)).
  by rewrite <- !rows_fmap, Hs.
Qed.

Lemma foldl_ext_in {A B} (f g : A → B → A) (a : A) (l : list B) :
  (∀ a x, x ∈ l → f a x = g a x) → foldl f a l = foldl g a l.
Proof.
  revert a. induction l as [|x l IH]; intros a H; [done|]. simpl.
  rewrite (H a x) by left. apply IH. intros a' y Hy. apply H. by right.
Qed.

Lemma expected_url_same_shape db db' π :
  same_shape db db' → expected_url db' π = expected_url db π.
Proof.
  intros Hs. unfold expected_url. apply foldl_ext_in. intros a n _.
  by rewrite (slug_at_same_shape db db').
Qed.

Lemma expected_url_root db k : expected_url db [k] = "/".
Proof. done. Qed.

Lemma expected_url_snoc db π k :
  π ≠ [] →
  expected_url db (π ++ [k])
  = expected_url db π +:+ slug_at db (π ++ [k]) +:+ "/".
Proof.
  intros Hne. unfold expected_url. rewrite length_app. simpl.
  assert (length π ≠ 0) as Hlen by (by destruct π).
  replace (length π + 1 - 1) with (S (length π - 1)) by lia.
  rewrite seq_S, foldl_app. simpl.
  rewrite (take_ge (π ++ [k])) by (rewrite length_app; simpl; lia). f_equal.
  apply foldl_ext_in. intros a n Hn%elem_of_seq.
  rewrite take_app_le by lia. done.
Qed.

Lemma url_paths_closed_form db :
  wf db → url_paths_rel db →
  ∀ i r, db !! i = Some r → url_path r = expected_url db (path r).
Proof.
  intros Hwf [Hroot Hrel].
  assert (∀ n i r, length (path r) = n → db !! i = Some r →
            url_path r = expected_url db (path r)) as H; [|by eauto].
  induction n as [|n IH]; intros i r Hn Hi.
  { pose proof (wf_path_nonempty db i r Hwf Hi). by destruct (path r). }
  destruct (nil_or_snoc (path r)) as [E|(π & k & E)].
  { rewrite E in Hn. done. }
  destruct (decide (π = [])) as [->|Hne].
  - simpl in E. rewrite E, expected_url_root. apply (Hroot i r Hi).
    unfold depth. by rewrite E.
  - destruct (wf_parent db i r Hwf Hi) as (j & q & Hj & Hq).
    { unfold depth. rewrite E, length_app. simpl. destruct π; [done|]. simpl. lia. }
    rewrite E, parent_path_snoc in Hq.
    assert (child_of r q) as Hch by (exists k; by rewrite Hq).
    rewrite (Hrel i r j q Hi Hj Hch).
    rewrite (IH j q); [|rewrite E, length_app in Hn; simpl in Hn; rewrite Hq; lia|done].
    rewrite E, expected_url_snoc by done. rewrite Hq, <- E.
    by rewrite (slug_at_row db i r).
Qed.

(** X6.  After set_url_paths, the [url_path] of every row is ["/"] followed
    by the slugs of its ancestors below the root level and its own slug, each
    with a ["/"] after it; the slug of a root is in no path. *)
Theorem set_url_paths_closed_form limit db :
  wf db → bounded limit db →
  ∃ db', set_url_paths.handle limit db = Ok db' ∧
    ∀ i r, db' !! i = Some r → url_path r = expected_url db (path r).
Proof.
  intros Hwf Hb.
  destruct (set_url_paths_spec limit db Hwf Hb) as (db' & Hrun & Hs & Hok).
  exists db'. split; [done|]. intros i r Hi.
  rewrite <- (expected_url_same_shape db db') by done.
  eapply url_paths_closed_form; eauto using same_shape_wf.
Qed.

Lemma set_url_paths_closed_form_witness :
  wf demo ∧ bounded 3 demo ∧
  ∃ db', set_url_paths.handle 3 demo = Ok db' ∧
    ∀ i r, db' !! i = Some r → url_path r = expected_url demo (path r).
Proof.
  assert (wf demo) as H1 by (apply (bool_decide_unpack _); by vm_compute).
  assert (bounded 3 demo) as H2 by (apply (bool_decide_unpack _); by vm_compute).
  split; [exact H1|]. split; [exact H2|].
  exact (set_url_paths_closed_form 3 demo H1 H2).
Defined.

Example expected_url_demo :
  expected_url demo [1; 1; 2] = "/home/blog/" ∧ expected_url demo [1] = "/".
Proof. split; reflexivity. Qed.

(** Rows with the same key, position and slug and the right paths are the
    same rows. *)
Lemma url_paths_unique db1 db2 :
  wf db1 → same_shape db1 db2 → url_paths_rel db1 → url_paths_rel db2 → db1 = db2.
Proof.
  intros Hwf Hs H1 H2. apply map_eq. intros i.
  destruct (db1 !! i) as [r1|] eqn:E1.
  - destruct (same_shape_lookup db1 db2 i r1 Hs E1) as (r2 & E2 & He).
    rewrite E2. f_equal.
    assert (url_path r1 = url_path r2) as Hu.
    { rewrite (url_paths_closed_form db1 Hwf H1 i r1 E1).
      rewrite (url_paths_closed_form db2 (same_shape_wf _ _ Hs Hwf) H2 i r2 E2).
      apply erase_eq in He as (_ & -> & _).
      by rewrite (expected_url_same_shape db1 db2). }
    destruct r1, r2. unfold erase, set_url_path in He. simpl in *. congruence.
  - destruct (db2 !! i) as [r2|] eqn:E2; [|done].
    destruct (same_shape_lookup db2 db1 i r2 (same_shape_sym _ _ Hs) E2)
      as (r1 & E1' & _). congruence.
Qed.

(** X7.  The paths that set_url_paths writes do not depend on the paths that
    were stored before: two tables that differ in [url_path] columns only
    come out as the same table. *)
Theorem set_url_paths_ignores_stale_paths limit db1 db2 :
  wf db1 → bounded limit db1 → same_shape db1 db2 →
  ∃ db', set_url_paths.handle limit db1 = Ok db' ∧
         set_url_paths.handle limit db2 = Ok db'.
Proof.
  intros Hwf Hb Hs.
  assert (wf db2) as Hwf2 by eauto using same_shape_wf.
  assert (bounded limit db2) as Hb2 by eauto using same_shape_bounded.
  destruct (set_url_paths_spec limit db1 Hwf Hb) as (d1 & Hrun1 & Hs1 & Hok1).
  destruct (set_url_paths_spec limit db2 Hwf2 Hb2) as (d2 & Hrun2 & Hs2 & Hok2).
  exists d1. split; [done|]. rewrite Hrun2. f_equal. symmetry.
  apply url_paths_unique; eauto using same_shape_wf.
  unfold same_shape in *. congruence.
Qed.

Lemma set_url_paths_ignores_stale_paths_witness :
  let db2 := <[2%Z := mkPage 2 [1;1] "home" "/elsewhere/"]> demo in
  wf demo ∧ bounded 3 demo ∧ same_shape demo db2 ∧
  ∃ db', set_url_paths.handle 3 demo = Ok db' ∧
         set_url_paths.handle 3 db2 = Ok db'.
Proof.
  intros db2.
  assert (wf demo) as H1 by (apply (bool_decide_unpack _); by vm_compute).
  assert (bounded 3 demo) as H2 by (apply (bool_decide_unpack _); by vm_compute).
  assert (same_shape demo db2) as H3 by (by vm_compute).
  split; [exact H1|]. split; [exact H2|]. split; [exact H3|].
  exact (set_url_paths_ignores_stale_paths 3 demo db2 H1 H2 H3).
Defined.

(** *** One call of [set_subtree] *)

(** X8.  A call of [set_subtree] on a row of the table, with a recursion limit
    that covers the levels below it, returns; it changes [url_path] columns
    only, leaves every row that is not at or below [root] as it was, and
    gives [root] the path ["/"] (no parent) or the parent's path, the slug
    of [root] and ["/"]. *)
Theorem set_subtree_touches_subtree_only D limit root parent db :
  wf db → bounded D db → db !! id root = Some root → D < limit + depth root →
  ∃ db', set_url_paths.set_subtree limit root parent db = Ok db' ∧
    same_shape db db' ∧
    (∀ i r, db !! i = Some r → ¬ path root `prefix_of` path r →
       db' !! i = Some r) ∧
    url_path <$> db' !! id root
      = Some match parent with
             | None => "/"
             | Some parent => url_path parent +:+ slug root +:+ "/"
             end.
Proof.
  intros Hwf Hb Hroot Hlim.
  destruct (set_subtree_spec D limit root parent db Hwf Hb Hroot Hlim)
    as (db' & Hrun & Hs & Hfr & Hr & _).
  exists db'. split; [done|]. split; [done|]. split; [done|].
  rewrite Hr. by destruct parent.
Qed.

Lemma set_subtree_touches_subtree_only_witness :
  let root := mkPage 2 [1;1] "home" "/stale/" in
  let parent := Some (mkPage 1 [1] "root" "/") in
  wf demo ∧ bounded 3 demo ∧ demo !! id root = Some root ∧ 3 < 2 + depth root ∧
  ∃ db', set_url_paths.set_subtree 2 root parent demo = Ok db' ∧
    same_shape demo db' ∧
    (∀ i r, demo !! i = Some r → ¬ path root `prefix_of` path r →
       db' !! i = Some r) ∧
    url_path <$> db' !! id root = Some "/home/".
Proof.
  intros root parent.
  assert (wf demo) as H1 by (apply (bool_decide_unpack _); by vm_compute).
  assert (bounded 3 demo) as H2 by (apply (bool_decide_unpack _); by vm_compute).
  assert (demo !! id root = Some root) as H3 by reflexivity.
  assert (3 < 2 + depth root) as H4 by (vm_compute; lia).
  split; [exact H1|]. split; [exact H2|]. split; [exact H3|]. split; [exact H4|].
  exact (set_subtree_touches_subtree_only 3 2 root parent demo H1 H2 H3 H4).
Defined.

(** *** The recursion limit *)

Lemma for_each_raise {A S} (body : A → S → result S) xs s e :
  for_each body xs s = Raise e → ∃ x s', x ∈ xs ∧ body x s' = Raise e.
Proof.
  revert s. induction xs as [|x xs IH]; intros s H; [done|]. simpl in H.
  destruct (body x s) as [s'|e'] eqn:E.
  - destruct (IH s' H) as (y & s'' & Hy & Hr). exists y, s''. split; [by right|done].
  - injection H as ->. exists x, s. split; [by left|done].
Qed.

Lemma set_subtree_raises_only limit root parent db e :
  set_url_paths.set_subtree limit root parent db = Raise e → e = RecursionError.
Proof.
  revert root parent db. induction limit as [|limit IH]; intros root parent db H.
  { simpl in H. congruence. }
  rewrite set_subtree_unfold in H. cbv zeta in H.
  apply for_each_raise in H as (c & db' & _ & H). by eapply IH.
Qed.

Lemma save_same_shape_row db root r0 url :
  db !! id root = Some r0 → erase r0 = erase root →
  same_shape db (save (set_url_path root url) db).
Proof.
  intros H He. unfold same_shape, save. simpl. rewrite fmap_insert.
  apply insert_id. rewrite lookup_fmap, H. simpl. by rewrite He.
Qed.

Lemma for_each_ok_within l parent cs db0 db_a db' :
  (∀ root db db', wf db →
     (∃ r0, db !! id root = Some r0 ∧ erase r0 = erase root) →
     set_url_paths.set_subtree l root parent db = Ok db' →
     same_shape db db' ∧ subtree_within l root db) →
  wf db0 → same_shape db0 db_a →
  (∀ c, c ∈ cs → ∃ r0, db0 !! id c = Some r0 ∧ erase r0 = erase c) →
  for_each (λ c d, set_url_paths.set_subtree l c parent d) cs db_a = Ok db' →
  same_shape db0 db' ∧ ∀ c, c ∈ cs → subtree_within l c db0.
Proof.
  intros IH Hwf0. revert db_a.
  induction cs as [|c cs IHcs]; intros db_a Hs Hcs Hrun.
  { simpl in Hrun. injection Hrun as <-. split; [done|].
    intros c Hc. by apply elem_of_nil in Hc. }
  simpl in Hrun.
  destruct (set_url_paths.set_subtree l c parent db_a) as [db_b|] eqn:E; [|done].
  destruct (Hcs c) as (r0 & Hr0 & He0); [by left|].
  destruct (same_shape_lookup db0 db_a (id c) r0 Hs Hr0) as (ra & Hra & Hea).
  destruct (IH c db_a db_b) as [Hsab Hwithin]; [by eapply same_shape_wf| |done|].
  { exists ra. split; [done|]. congruence. }
  destruct (IHcs db_b) as [Hs' Hrest];
    [by eapply same_shape_trans|by intros; apply Hcs; right|done|].
  split; [done|]. intros c' [->|Hc']%elem_of_cons; [|by apply Hrest].
  intros i r Hi Hpre.
  destruct (same_shape_lookup db0 db_a i r Hs Hi) as (r' & Hr' & He').
  apply erase_eq in He' as (_ & Hp & _).
  unfold depth. rewrite <- Hp. apply (Hwithin i r' Hr'). by rewrite Hp.
Qed.

Lemma set_subtree_ok_within l root parent db db' :
  wf db → (∃ r0, db !! id root = Some r0 ∧ erase r0 = erase root) →
  set_url_paths.set_subtree l root parent db = Ok db' →
  same_shape db db' ∧ subtree_within l root db.
Proof.
  revert root parent db db'.
  induction l as [|l IH]; intros root parent db db' Hwf (r0 & Hr0 & He0) Hrun.
  { done. }
  rewrite set_subtree_unfold in Hrun. cbv zeta in Hrun.
  set (root' := set_url_path root (new_url root parent)) in *.
  set (db1 := save root' db) in *.
  assert (same_shape db db1) as Hs1 by (by eapply save_same_shape_row).
  assert (wf db1) as Hwf1 by eauto using same_shape_wf.
  pose proof He0 as (_ & Hp0 & _)%erase_eq.
  assert (∀ c, c ∈ get_children db1 root' →
            ∃ r1, db1 !! id c = Some r1 ∧ erase r1 = erase c) as Hkids.
  { intros c [[i Hi] _]%elem_of_get_children.
    rewrite (wf_id db1 i c Hwf1 Hi). eauto. }
  destruct (for_each_ok_within l (Some root') (get_children db1 root') db1 db1 db')
    as [Hs2 Hwithin]; auto.
  { intros. by eapply IH. }
  { done. }
  split; [by eapply same_shape_trans|].
  intros i r Hi [suf Hsuf]. destruct suf as [|k suf].
  { rewrite app_nil_r in Hsuf. unfold depth. rewrite Hsuf. lia. }
  destruct (wf_ancestor db i r (path root ++ [k]) Hwf Hi) as (j & c & Hj & Hc).
  { exists suf. by rewrite Hsuf, <- app_assoc. }
  { by destruct (path root). }
  assert (∀ i' q, db !! i' = Some q → path q ≠ path root → db1 !! i' = Some q)
    as Hkeep.
  { intros i' q Hq Hne. unfold db1, save. rewrite lookup_insert_ne; [done|].
    simpl. intros <-. apply Hne. replace q with r0 by congruence. done. }
  assert (db1 !! j = Some c) as Hj1.
  { apply Hkeep; [done|]. rewrite Hc. intros H%(f_equal length).
    rewrite length_app in H. simpl in H. lia. }
  assert (db1 !! i = Some r) as Hi1.
  { apply Hkeep; [done|]. rewrite Hsuf. intros H%(f_equal length).
    rewrite length_app in H. simpl in H. lia. }
  assert (c ∈ get_children db1 root') as Hin.
  { apply elem_of_get_children. split; [eauto|]. exists k. by rewrite Hc. }
  pose proof (Hwithin c Hin i r Hi1) as Hd.
  unfold depth in *. rewrite Hc, length_app in Hd. simpl in Hd.
  assert (length (path r) < l + (length (path root) + 1)); [|lia].
  apply Hd. exists suf. by rewrite Hsuf, <- app_assoc.
Qed.

(** X9.  The recursion limit decides whether set_url_paths returns: on a
    well-formed table it returns exactly when no row lies deeper than the
    limit, and otherwise it raises [RecursionError]. *)
Theorem set_url_paths_recursion_limit limit db :
  wf db →
  ((∃ db', set_url_paths.handle limit db = Ok db') ↔ bounded limit db) ∧
  (¬ bounded limit db → set_url_paths.handle limit db = Raise RecursionError).
Proof.
  intros Hwf.
  assert ((∃ db', set_url_paths.handle limit db = Ok db') → bounded limit db) as Hok.
  { intros [db' Hrun]. unfold set_url_paths.handle in Hrun.
    assert (∀ c, c ∈ get_root_nodes db →
              ∃ r0, db !! id c = Some r0 ∧ erase r0 = erase c) as Hroots.
    { intros c [[i Hi] _]%elem_of_get_root_nodes.
      rewrite (wf_id db i c Hwf Hi). eauto. }
    pose proof (for_each_ok_within limit None (get_root_nodes db) db db db'
                  (λ root d d', set_subtree_ok_within limit root None d d')
                  Hwf eq_refl Hroots Hrun) as [_ Hwithin].
    intros i r Hi. simpl.
    pose proof (wf_path_nonempty db i r Hwf Hi) as Hne.
    destruct (path r) as [|k suf] eqn:E; [done|].
    destruct (wf_ancestor db i r [k] Hwf Hi) as (j & c & Hj & Hc); [|done|].
    { exists suf. by rewrite E. }
    assert (c ∈ get_root_nodes db) as Hin.
    { apply elem_of_get_root_nodes. split; [eauto|]. unfold depth. by rewrite Hc. }
    pose proof (Hwithin c Hin i r Hi) as Hd.
    unfold depth in *. rewrite Hc, E in Hd. simpl in Hd.
    assert (S (length suf) < limit + 1); [|rewrite E; simpl; lia].
    apply Hd. by exists suf. }
  split; [split; [done|]|].
  - intros Hb. destruct (set_url_paths_spec limit db Hwf Hb) as (db' & Hrun & _).
    eauto.
  - intros Hnb. destruct (set_url_paths.handle limit db) as [db'|e] eqn:E.
    + exfalso. apply Hnb, Hok. eauto.
    + f_equal. unfold set_url_paths.handle in E.
      apply for_each_raise in E as (c & d & _ & E).
      by eapply set_subtree_raises_only.
Qed.

Lemma set_url_paths_recursion_limit_witness :
  wf demo ∧
  ((∃ db', set_url_paths.handle 2 demo = Ok db') ↔ bounded 2 demo) ∧
  (¬ bounded 2 demo → set_url_paths.handle 2 demo = Raise RecursionError).
Proof.
  assert (wf demo) as H1 by (apply (bool_decide_unpack _); by vm_compute).
  split; [exact H1|]. exact (set_url_paths_recursion_limit 2 demo H1).
Defined.

Example set_url_paths_demo_limit :
  ¬ bounded 2 demo ∧ set_url_paths.handle 2 demo = Raise RecursionError.
Proof. split; [|by vm_compute]. apply (bool_decide_unpack _). by vm_compute. Qed.

End PageTreeProps.
(** ** More about the mail module *)

Module MailProps.
Import Mail MailFacts.

Local Open Scope Z_scope.

Lemma call_cannot_handle (self : NotifierObject) instance kwargs outbox :
  can_handle self instance kwargs = false →
  Notifier.__call__ self instance kwargs outbox = (Ok (PyBool false), outbox).
Proof. intros H. unfold Notifier.__call__. by rewrite H. Qed.

Lemma call_outbox_unchanged (self : NotifierObject) instance kwargs outbox :
  (∀ template_set context valid,
     ∃ e, send_notifications self template_set context valid kwargs outbox
          = (Raise e, outbox)) →
  (Notifier.__call__ self instance kwargs outbox).2 = outbox.
Proof.
  intros Hsend. unfold Notifier.__call__.
  destruct (can_handle self instance kwargs); [|done]. change (negb true) with false. cbv iota.
  unfold mbind, M_bind, lift. cbv zeta.
  destruct (get_valid_recipients self instance kwargs) as [[|u valid]|]; [done| |done].
  destruct (get_context self instance kwargs) as [context|]; [|done].
  change (negb true) with false. cbv beta iota.
  by destruct (Hsend (get_template_set self instance kwargs) context (u :: valid))
    as [e ->].
Qed.

(** *** Which instances a notifier handles *)

(** X10.  A notifier that cannot handle the instance returns [False] and
    leaves the outbox as it was.  The three workflow-state notifiers handle
    workflow states and nothing else; the group approval notifier handles the
    task states whose task is a group approval task and nothing else. *)
Theorem notifiers_decline_other_instances :
  (∀ (self : NotifierObject) instance kwargs outbox,
     can_handle self instance kwargs = false →
     Notifier.__call__ self instance kwargs outbox = (Ok (PyBool false), outbox)) ∧
  (∀ env instance kwargs,
     can_handle (WorkflowStateApprovalEmailNotifier.new env) instance kwargs
       = is_workflow_state instance ∧
     can_handle (WorkflowStateRejectionEmailNotifier.new env) instance kwargs
       = is_workflow_state instance ∧
     can_handle (WorkflowStateSubmissionEmailNotifier.new env) instance kwargs
       = is_workflow_state instance) ∧
  (∀ env instance kwargs,
     can_handle (GroupApprovalTaskStateSubmissionEmailNotifier.new env)
       instance kwargs = true
     ↔ ∃ task_state task_pk task_groups,
         instance = ITaskState task_state ∧
         task task_state = GroupApprovalTask task_pk task_groups).
Proof.
  split; [exact call_cannot_handle|]. split; [done|].
  intros env instance kwargs. simpl.
  unfold BaseGroupApprovalTaskStateEmailNotifier.can_handle, Notifier.can_handle.
  split.
  - destruct instance as [ws|ts|cn]; simpl; try done.
    destruct (task ts) as [task_pk task_groups|] eqn:E; [|done].
    intros _. by exists ts, task_pk, task_groups.
  - intros (ts & task_pk & task_groups & -> & E). simpl. by rewrite E.
Qed.

Lemma notifiers_decline_other_instances_witness :
  let self := WorkflowStateApprovalEmailNotifier.new demo_env in
  let instance := ITaskState demo_task_state in
  let kwargs := mkKwargs (Some editor) in
  can_handle self instance kwargs = false ∧
  Notifier.__call__ self instance kwargs [] = (Ok (PyBool false), []).
Proof.
  intros self instance kwargs. split; [reflexivity|].
  exact (proj1 notifiers_decline_other_instances self instance kwargs []
           eq_refl).
Defined.

(** *** Valid recipients *)

(** X11.  The valid recipients of an e-mail notifier are, without repetition,
    the recipient users that are active, have an e-mail address and have the
    notification switched on in their profile. *)
Theorem valid_recipients_filter env self_notification self_can_handle
    self_get_recipient_users self_get_context instance kwargs recipient_users :
  self_get_recipient_users instance kwargs = Ok recipient_users →
  ∃ valid,
    get_valid_recipients
      (EmailNotificationMixin.new env self_notification self_can_handle
         self_get_recipient_users self_get_context) instance kwargs = Ok valid ∧
    NoDup valid ∧
    ∀ u, u ∈ valid ↔
         u ∈ recipient_users ∧ is_active u = true ∧ email u ≠ "" ∧
         notification_preference env u (self_notification +:+ "_notifications")
           = true.
Proof.
  intros Hrec. simpl. unfold EmailNotificationMixin.get_valid_recipients.
  rewrite Hrec. eexists. split; [done|]. split; [apply NoDup_remove_dups|].
  intros u. rewrite elem_of_remove_dups, list_elem_of_filter. tauto.
Qed.

Lemma valid_recipients_filter_witness :
  let instance := ITaskState demo_task_state in
  let kwargs := mkKwargs (Some admin) in
  BaseGroupApprovalTaskStateEmailNotifier.get_recipient_users demo_env
    demo_task_state kwargs = Ok [editor; silent] ∧
  ∃ valid,
    get_valid_recipients (GroupApprovalTaskStateSubmissionEmailNotifier.new demo_env)
      instance kwargs = Ok valid ∧
    NoDup valid ∧
    ∀ u, u ∈ valid ↔
         u ∈ [editor; silent] ∧ is_active u = true ∧ email u ≠ "" ∧
         notification_preference demo_env u ("submitted" +:+ "_notifications")
           = true.
Proof.
  intros instance kwargs. split; [reflexivity|].
  exact (valid_recipients_filter demo_env "submitted" _ _ _ instance kwargs
           [editor; silent] eq_refl).
Defined.

(** *** What [send_notification] sends *)

Lemma send_notification_cons env recipient_users (notification_name : string)
    extra_context u0 us :
  filter (λ u, email u ≠ "") recipient_users = u0 :: us →
  send_notification env recipient_users notification_name extra_context
  = (subject_text ← lift (render_to_string env
       ("wagtailadmin/notifications/" +:+ notification_name +:+ ".subject.txt")
       None);
     message ← lift (render_to_string env
       ("wagtailadmin/notifications/" +:+ notification_name +:+ ".txt")
       (Some (extra_context ∪
                {[ "SITE_ROOT_URL" := CStr (SITE_ROOT_URL (settings env)) ]})));
     send_mail env (strip env subject_text) message
       (Address <$> (email <$> u0 :: us)) None [];;
     mret PyNone).
Proof. intros H. unfold send_notification. by rewrite H. Qed.

Lemma filter_email_cons recipient_users u :
  u ∈ recipient_users → email u ≠ "" →
  ∃ u0 us, filter (λ u, email u ≠ "") recipient_users = u0 :: us ∧ email u0 ≠ "".
Proof.
  intros Hu He.
  assert (u ∈ filter (λ u, email u ≠ "") recipient_users) as Hin
    by by apply list_elem_of_filter.
  destruct (filter _ _) as [|u0 us] eqn:E; [by apply elem_of_nil in Hin|].
  exists u0, us. split; [done|].
  assert (u0 ∈ filter (λ u, email u ≠ "") recipient_users) as H0 by (rewrite E; left).
  by apply list_elem_of_filter in H0 as [? _].
Qed.

Lemma from_email_or_default d : from_email_or (Some d) d = d.
Proof. by destruct d. Qed.

Lemma EmailMultiAlternatives_plain d subject_text message to_list :
  EmailMultiAlternatives d subject_text message (Some d) to_list []
  = Ok (mkEmailMessage subject_text message d to_list [] [] ∅).
Proof. by destruct d. Qed.

(** X12.  When a recipient user has an e-mail address and the two templates
    render, [send_notification] hands one message to the backend: from
    [DEFAULT_FROM_EMAIL], to the addresses of the recipient users that have
    one, in their order, with the stripped rendering of the subject template
    as subject, the rendering of the text template (in the extra context
    completed with [SITE_ROOT_URL]) as body, and the auto-generated header.
    When the backend accepts the message, it is the one message sent; when
    the backend refuses it (a subject of several lines, a failing transport),
    the exception is raised and nothing is sent. *)
Theorem send_notification_one_message env recipient_users
    (notification_name : string) extra_context outbox u subject_text message :
  let sent :=
    mkEmailMessage (strip env subject_text) message
      (DEFAULT_FROM_EMAIL (settings env))
      (Address <$> (email <$> filter (λ u, email u ≠ "") recipient_users))
      [] [] {[ "Auto-Submitted" := "auto-generated" ]} in
  u ∈ recipient_users → email u ≠ "" →
  render_to_string env
    ("wagtailadmin/notifications/" +:+ notification_name +:+ ".subject.txt") None
    = Ok subject_text →
  render_to_string env
    ("wagtailadmin/notifications/" +:+ notification_name +:+ ".txt")
    (Some (extra_context ∪
             {[ "SITE_ROOT_URL" := CStr (SITE_ROOT_URL (settings env)) ]}))
    = Ok message →
  (deliver env sent = Ok () →
   send_notification env recipient_users notification_name extra_context outbox
   = (Ok PyNone, outbox ++ [sent])) ∧
  (∀ e, deliver env sent = Raise e →
   send_notification env recipient_users notification_name extra_context outbox
   = (Raise e, outbox)).
Proof.
  intros sent Hu He Hsub Hmsg.
  destruct (filter_email_cons recipient_users u Hu He) as (u0 & us & E & He0).
  rewrite (send_notification_cons _ _ _ _ u0 us E).
  unfold sent. rewrite E. clear sent.
  unfold mbind, M_bind, lift. rewrite Hsub, Hmsg.
  unfold send_mail, mbind, M_bind, lift, mret, M_ret.
  rewrite EmailMultiAlternatives_plain.
  unfold send, recipients, set_extra_headers. simpl.
  rewrite filter_cons_True by congruence.
  split; [by intros ->|by intros e ->].
Qed.

Lemma send_notification_one_message_witness :
  let sent :=
    mkEmailMessage
      (strip demo_env "wagtailadmin/notifications/approved_moderation.subject.txt")
      "wagtailadmin/notifications/approved_moderation.txt"
      (DEFAULT_FROM_EMAIL (settings demo_env))
      (Address <$> (email <$> filter (λ u, email u ≠ "") demo_users))
      [] [] {[ "Auto-Submitted" := "auto-generated" ]} in
  editor ∈ demo_users ∧ email editor ≠ "" ∧
  render_to_string demo_env
    ("wagtailadmin/notifications/" +:+ "approved_moderation" +:+ ".subject.txt")
    None = Ok "wagtailadmin/notifications/approved_moderation.subject.txt" ∧
  render_to_string demo_env
    ("wagtailadmin/notifications/" +:+ "approved_moderation" +:+ ".txt")
    (Some (∅ ∪ {[ "SITE_ROOT_URL" := CStr (SITE_ROOT_URL (settings demo_env)) ]}))
    = Ok "wagtailadmin/notifications/approved_moderation.txt" ∧
  deliver demo_env sent = Ok () ∧
  send_notification demo_env demo_users "approved_moderation" ∅ []
  = (Ok PyNone, [] ++ [sent]).
Proof.
  intros sent.
  assert (editor ∈ demo_users) as H1 by (apply (bool_decide_unpack _); by vm_compute).
  assert (email editor ≠ "") as H2 by done.
  split; [exact H1|]. split; [exact H2|]. split; [reflexivity|].
  split; [reflexivity|]. split; [reflexivity|].
  exact (proj1 (send_notification_one_message demo_env demo_users
                  "approved_moderation" ∅ [] editor _ _ H1 H2 eq_refl eq_refl)
               eq_refl).
Defined.

(** A subject template that renders to two lines: the backend of the demo
    site refuses the message and nothing is sent. *)
Example send_notification_two_line_subject :
  let env := mkEnv demo_settings demo_users
               (λ template_name _,
                  Ok ("Approved" +:+ String (Ascii.ascii_of_nat 10) "page"))
               id id (λ _ _ _, demo_users) (λ _ _, true) demo_deliver in
  send_notification env demo_users "approved_moderation" ∅ []
  = (Raise (BadHeaderError "Header values can't contain newlines"), []).
Proof. reflexivity. Qed.

(** X13.  When a template fails to render, [send_notification] raises the
    exception of the template engine and sends nothing. *)
Theorem send_notification_template_failure env recipient_users
    (notification_name : string) extra_context outbox u e :
  u ∈ recipient_users → email u ≠ "" →
  (render_to_string env
     ("wagtailadmin/notifications/" +:+ notification_name +:+ ".subject.txt")
     None = Raise e →
   send_notification env recipient_users notification_name extra_context outbox
   = (Raise e, outbox)) ∧
  (∀ subject_text,
     render_to_string env
       ("wagtailadmin/notifications/" +:+ notification_name +:+ ".subject.txt")
       None = Ok subject_text →
     render_to_string env
       ("wagtailadmin/notifications/" +:+ notification_name +:+ ".txt")
       (Some (extra_context ∪
                {[ "SITE_ROOT_URL" := CStr (SITE_ROOT_URL (settings env)) ]}))
       = Raise e →
     send_notification env recipient_users notification_name extra_context outbox
     = (Raise e, outbox)).
Proof.
  intros Hu He.
  destruct (filter_email_cons recipient_users u Hu He) as (u0 & us & E & He0).
  rewrite (send_notification_cons _ _ _ _ u0 us E).
  unfold mbind, M_bind, lift. split.
  - by intros ->.
  - by intros subject_text -> ->.
Qed.

(** A site like [demo_env] on which no template exists. *)
Lemma send_notification_template_failure_witness :
  let env := mkEnv demo_settings demo_users
               (λ template_name _, Raise (TemplateDoesNotExist template_name))
               id id (λ _ _ _, demo_users) (λ _ _, true) demo_deliver in
  editor ∈ demo_users ∧ email editor ≠ "" ∧
  render_to_string env
    ("wagtailadmin/notifications/" +:+ "approved_moderation" +:+ ".subject.txt")
    None
  = Raise (TemplateDoesNotExist
             "wagtailadmin/notifications/approved_moderation.subject.txt") ∧
  send_notification env demo_users "approved_moderation" ∅ []
  = (Raise (TemplateDoesNotExist
              "wagtailadmin/notifications/approved_moderation.subject.txt"), []).
Proof.
  intros env.
  assert (editor ∈ demo_users) as H1 by (apply (bool_decide_unpack _); by vm_compute).
  assert (email editor ≠ "") as H2 by done.
  split; [exact H1|]. split; [exact H2|]. split; [reflexivity|].
  exact (proj1 (send_notification_template_failure env demo_users
                  "approved_moderation" ∅ [] editor _ H1 H2) eq_refl).
Defined.

(** *** What [send_mail] sends *)

(** X14.  A call of [send_mail] adds at most one message to the outbox; the
    message has the subject, the body and the recipient list of the call, and
    its sender is [from_email], or [DEFAULT_FROM_EMAIL] when [from_email] is
    [None] or the empty string. *)
Theorem send_mail_message env subject_text message recipient_list sender kwargs
    outbox :
  ∃ sent,
    (send_mail env subject_text message recipient_list sender kwargs outbox).2
      = outbox ++ sent ∧
    (length sent ≤ 1)%nat ∧
    Forall (λ m, subject m = subject_text ∧ body m = message ∧
                 to m = recipient_list ∧
                 from_email m
                   = from_email_or sender (DEFAULT_FROM_EMAIL (settings env)) ∧
                 (sender = None ∨ sender = Some "" →
                  from_email m = DEFAULT_FROM_EMAIL (settings env))) sent.
Proof.
  unfold send_mail, mbind, M_bind, lift.
  destruct (EmailMultiAlternatives _ _ _ _ _ _) as [m0|e] eqn:E.
  - assert (subject m0 = subject_text ∧ body m0 = message ∧
            to m0 = recipient_list ∧
            from_email m0
              = from_email_or sender (DEFAULT_FROM_EMAIL (settings env)) ∧
            (sender = None ∨ sender = Some "" →
             from_email m0 = DEFAULT_FROM_EMAIL (settings env)))
      as Hm0.
    { unfold EmailMultiAlternatives in E. destruct (find _ _) as [[]|]; [done|].
      injection E as <-. cbn [subject body to from_email].
      destruct sender as [[|a f]|];
        destruct (DEFAULT_FROM_EMAIL (settings env));
        simpl; repeat split; try done; by intros [?|?]. }
    unfold send.
    destruct (recipients _); simpl.
    + exists []. rewrite app_nil_r. split; [done|]. split; [simpl; lia|constructor].
    + destruct (deliver env _); simpl.
      * eexists [_]. split; [done|]. split; [simpl; lia|].
        constructor; [|constructor]. done.
      * exists []. rewrite app_nil_r. split; [done|].
        split; [simpl; lia|constructor].
  - exists []. rewrite app_nil_r. split; [done|]. split; [simpl; lia|constructor].
Qed.

(** A message sent with an empty [from_email] comes from the default sender. *)
Example send_mail_empty_from_email :
  send_mail demo_env "Subject" "Body" [Address "editor@example.com"] (Some "") [] []
  = (Ok PyNone,
     [ mkEmailMessage "Subject" "Body" "cms@example.com"
         [Address "editor@example.com"] [] []
         {[ "Auto-Submitted" := "auto-generated" ]} ]).
Proof. reflexivity. Qed.

(** *** What the notifiers send *)

(** X15.  An e-mail notifier never adds a message to the outbox: [send_emails]
    hands the keyword [html_message] to [send_mail], which passes it on to
    the constructor of the message, and the constructor does not have it.
    With a valid recipient, the call of the notifier raises. *)
Theorem email_notifiers_never_deliver env self_notification self_can_handle
    self_get_recipient_users self_get_context instance kwargs outbox :
  let self := EmailNotificationMixin.new env self_notification self_can_handle
                self_get_recipient_users self_get_context in
  (Notifier.__call__ self instance kwargs outbox).2 = outbox ∧
  (∀ u valid,
     can_handle self instance kwargs = true →
     get_valid_recipients self instance kwargs = Ok (u :: valid) →
     ∃ e, Notifier.__call__ self instance kwargs outbox = (Raise e, outbox)).
Proof.
  cbv zeta.
  set (self := EmailNotificationMixin.new _ _ _ _ _).
  assert (∀ template_set context valid,
            ∃ e, send_notifications self template_set context valid kwargs outbox
                 = (Raise e, outbox)) as Hsend.
  { intros. apply send_emails_unexpected_keyword. }
  split.
  - by apply call_outbox_unchanged.
  - intros u valid Hcan Hvalid. unfold Notifier.__call__.
    rewrite Hcan. change (negb true) with false. cbv iota. unfold mbind, M_bind, lift. cbv zeta.
    rewrite Hvalid.
    destruct (get_context self instance kwargs) as [context|e]; [|eauto].
    change (negb true) with false. cbv beta iota. apply Hsend.
Qed.

Lemma email_notifiers_never_deliver_witness :
  let self_get_recipient_users :=
    on_task_state
      (BaseGroupApprovalTaskStateEmailNotifier.get_recipient_users demo_env) in
  let self_get_context :=
    on_task_state (λ task_state kwargs,
      Ok (BaseGroupApprovalTaskStateEmailNotifier.get_context
            demo_env task_state kwargs)) in
  let self := EmailNotificationMixin.new demo_env "submitted"
                BaseGroupApprovalTaskStateEmailNotifier.can_handle
                self_get_recipient_users self_get_context in
  let instance := ITaskState demo_task_state in
  let kwargs := mkKwargs (Some admin) in
  can_handle self instance kwargs = true ∧
  get_valid_recipients self instance kwargs = Ok [editor] ∧
  ∃ e, Notifier.__call__ self instance kwargs [] = (Raise e, []).
Proof.
  intros self_get_recipient_users self_get_context self instance kwargs.
  split; [reflexivity|]. split; [reflexivity|].
  exact (proj2 (email_notifiers_never_deliver demo_env "submitted"
                  BaseGroupApprovalTaskStateEmailNotifier.can_handle
                  self_get_recipient_users self_get_context
                  instance kwargs []) editor [] eq_refl eq_refl).
Defined.

(** X16.  An object of the base class [Notifier] returns whether it can handle
    the instance; it sends nothing and never reaches the
    [send_notifications] that raises [NotImplementedError], because its set
    of valid recipients is empty. *)
Theorem base_notifier_call env valid_classes instance kwargs outbox :
  Notifier.__call__ (Notifier.new env valid_classes) instance kwargs outbox
  = (Ok (PyBool (valid_classes instance)), outbox).
Proof.
  unfold Notifier.__call__. simpl. unfold Notifier.can_handle.
  by destruct (valid_classes instance).
Qed.

(** *** Who is notified *)

(** X17.  On approval and on rejection the only possible recipient is the
    user who requested the workflow, and that user is left out exactly when
    the call names them as the triggering user. *)
Theorem requester_is_notified workflow_state kwargs :
  WorkflowStateRejectionEmailNotifier.get_recipient_users workflow_state kwargs
  = WorkflowStateApprovalEmailNotifier.get_recipient_users workflow_state kwargs ∧
  ((∃ t, user kwargs = Some t ∧ pk t = pk (requested_by workflow_state)) →
   WorkflowStateApprovalEmailNotifier.get_recipient_users workflow_state kwargs
   = []) ∧
  ((∀ t, user kwargs = Some t → pk t ≠ pk (requested_by workflow_state)) →
   WorkflowStateApprovalEmailNotifier.get_recipient_users workflow_state kwargs
   = [requested_by workflow_state]).
Proof.
  split; [done|].
  unfold WorkflowStateApprovalEmailNotifier.get_recipient_users. cbv zeta.
  split.
  - intros (t & -> & Ht). simpl. rewrite <- Ht, Z.eqb_refl. done.
  - intros Hne. destruct (user kwargs) as [t|]; [|done]. simpl.
    destruct (Z.eqb_spec (pk (requested_by workflow_state)) (pk t)) as [E|]; [|done].
    exfalso. by apply (Hne t).
Qed.

Lemma requester_is_notified_witness :
  (∃ t, user (mkKwargs (Some admin)) = Some t ∧
        pk t = pk (requested_by demo_workflow_state)) ∧
  WorkflowStateApprovalEmailNotifier.get_recipient_users demo_workflow_state
    (mkKwargs (Some admin)) = [] ∧
  (∀ t, user (mkKwargs (Some editor)) = Some t →
        pk t ≠ pk (requested_by demo_workflow_state)) ∧
  WorkflowStateApprovalEmailNotifier.get_recipient_users demo_workflow_state
    (mkKwargs (Some editor)) = [admin].
Proof.
  assert (∃ t, user (mkKwargs (Some admin)) = Some t ∧
               pk t = pk (requested_by demo_workflow_state)) as H1
    by (by exists admin).
  assert (∀ t, user (mkKwargs (Some editor)) = Some t →
               pk t ≠ pk (requested_by demo_workflow_state)) as H2
    by (by intros t [= <-]).
  split; [exact H1|]. split.
  { exact (proj1 (proj2 (requester_is_notified demo_workflow_state
                           (mkKwargs (Some admin)))) H1). }
  split; [exact H2|].
  exact (proj2 (proj2 (requester_is_notified demo_workflow_state
                         (mkKwargs (Some editor)))) H2).
Defined.

(** X18.  The recipients of a group approval notification are the users of
    the user table that are in one of the groups of the task or, unless the
    setting says otherwise, are superusers, and that are not the triggering
    user. *)
Theorem group_approval_recipients env task_state kwargs task_pk task_groups :
  task task_state = GroupApprovalTask task_pk task_groups →
  ∃ recipients,
    BaseGroupApprovalTaskStateEmailNotifier.get_recipient_users env task_state
      kwargs = Ok recipients ∧
    ∀ u, u ∈ recipients ↔
         u ∈ users env ∧
         (Exists (λ g, g ∈ task_groups) (groups u) ∨
          (include_superusers_setting env = true ∧ is_superuser u = true)) ∧
         (∀ t, user kwargs = Some t → pk u ≠ pk t).
Proof.
  intros Htask.
  unfold BaseGroupApprovalTaskStateEmailNotifier.get_recipient_users.
  rewrite Htask. cbv zeta. eexists. split; [done|]. intros u.
  assert (u ∈ (if include_superusers_setting env
               then list_union (users_in_groups env task_groups) (superusers env)
               else users_in_groups env task_groups)
          ↔ u ∈ users env ∧
            (Exists (λ g, g ∈ task_groups) (groups u) ∨
             (include_superusers_setting env = true ∧ is_superuser u = true)))
    as Hmem.
  { unfold users_in_groups, superusers.
    destruct (include_superusers_setting env).
    - rewrite list_elem_of_union, !list_elem_of_filter. tauto.
    - rewrite list_elem_of_filter. split; [tauto|].
      intros [? [?|[? _]]]; [tauto|done]. }
  destruct (user kwargs) as [t|].
  - rewrite elem_of_exclude_pk, Hmem. split.
    + intros [Hne H]. split; [tauto|]. split; [tauto|]. by intros t' [= <-].
    + intros (? & ? & Hne). split; [by apply Hne|tauto].
  - rewrite Hmem. split; [|tauto]. intros [? ?]. by repeat split.
Qed.

Lemma group_approval_recipients_witness :
  task demo_task_state = GroupApprovalTask 5 [7] ∧
  ∃ recipients,
    BaseGroupApprovalTaskStateEmailNotifier.get_recipient_users demo_env
      demo_task_state (mkKwargs (Some editor)) = Ok recipients ∧
    ∀ u, u ∈ recipients ↔
         u ∈ users demo_env ∧
         (Exists (λ g, g ∈ [7]) (groups u) ∨
          (include_superusers_setting demo_env = true ∧ is_superuser u = true)) ∧
         (∀ t, user (mkKwargs (Some editor)) = Some t → pk u ≠ pk t).
Proof.
  split; [reflexivity|].
  exact (group_approval_recipients demo_env demo_task_state
           (mkKwargs (Some editor)) 5 [7] eq_refl).
Defined.

(** X19.  With [WAGTAILADMIN_NOTIFICATION_INCLUDE_SUPERUSERS] set to [False]
    nobody is notified of a submission of a workflow: the submission notifier
    has no recipient, returns [True] and sends nothing. *)
Theorem submission_without_superusers env workflow_state kwargs outbox :
  WAGTAILADMIN_NOTIFICATION_INCLUDE_SUPERUSERS (settings env) = Some false →
  WorkflowStateSubmissionEmailNotifier.get_recipient_users env workflow_state
    kwargs = [] ∧
  Notifier.__call__ (WorkflowStateSubmissionEmailNotifier.new env)
    (IWorkflowState workflow_state) kwargs outbox = (Ok (PyBool true), outbox).
Proof.
  intros Hset.
  assert (WorkflowStateSubmissionEmailNotifier.get_recipient_users env
            workflow_state kwargs = []) as Hnone.
  { rewrite submission_recipients. unfold include_superusers_setting.
    by rewrite Hset. }
  split; [done|]. apply call_no_valid_recipients; [done|]. simpl.
  unfold EmailNotificationMixin.get_valid_recipients. simpl. by rewrite Hnone.
Qed.

Lemma submission_without_superusers_witness :
  let env := mkEnv (mkSettings "cms@example.com" "http://localhost" (Some false))
               demo_users (λ template_name _, Ok template_name) id id
               (λ _ _ _, demo_users) (λ _ _, true) demo_deliver in
  WAGTAILADMIN_NOTIFICATION_INCLUDE_SUPERUSERS (settings env) = Some false ∧
  WorkflowStateSubmissionEmailNotifier.get_recipient_users env
    demo_workflow_state (mkKwargs (Some editor)) = [] ∧
  Notifier.__call__ (WorkflowStateSubmissionEmailNotifier.new env)
    (IWorkflowState demo_workflow_state) (mkKwargs (Some editor)) []
  = (Ok (PyBool true), []).
Proof.
  intros env. split; [reflexivity|].
  exact (submission_without_superusers env demo_workflow_state
           (mkKwargs (Some editor)) [] eq_refl).
Defined.

End MailProps.

(** ** [OpenedConnection] *)

Module ConnectionProps.
Import Connection.

Section connection_props.
Context {Conn : Type}.
Variable conn_open : Conn → result unit * Conn.
Variable conn_close : Conn → result unit * Conn.
Variable conn_truthy : bool.

(** X20.  Once the connection has been opened, a [with OpenedConnection(...)]
    block closes it when the body is left, whether the body returned or
    raised: the state after the block is the state the body left, closed.
    When opening raises, the body does not run and nothing is closed. *)
Theorem with_OpenedConnection_closes {A} (body : Conn → result A * Conn) c :
  (∀ c1, conn_open c = (Ok (), c1) →
     (with_OpenedConnection conn_open conn_close conn_truthy body c).2
     = (conn_close (body c1).2).2) ∧
  (∀ e c1, conn_open c = (Raise e, c1) →
     with_OpenedConnection conn_open conn_close conn_truthy body c
     = (Raise e, c1)).
Proof.
  unfold with_OpenedConnection, __enter__, __exit__. split.
  - intros c1 ->. destruct (body c1) as [[a|e] c2]; simpl;
      destruct (conn_close c2) as [[[]|e'] c3]; simpl; try done.
    by destruct conn_truthy.
  - by intros e c1 ->.
Qed.

(** X21.  [__exit__] returns the connection object, so when that object is
    truthy, as objects are unless their class says otherwise, an exception
    raised in the body of the block is suppressed: the block ends normally,
    with the connection closed.  When the object is falsy the exception is
    raised again. *)
Theorem with_OpenedConnection_suppresses {A} (body : Conn → result A * Conn)
    c c1 c2 c3 e :
  conn_open c = (Ok (), c1) → body c1 = (Raise e, c2) →
  conn_close c2 = (Ok (), c3) →
  with_OpenedConnection conn_open conn_close conn_truthy body c
  = if conn_truthy then (Ok None, c3) else (Raise e, c3).
Proof.
  intros Ho Hb Hc. unfold with_OpenedConnection, __enter__, __exit__.
  rewrite Ho, Hb, Hc. done.
Qed.

End connection_props.

Lemma with_OpenedConnection_closes_witness :
  let body := λ c : DemoConnection,
    (Ok (), mkDemoConnection (is_open c) (S (delivered c))) in
  demo_open (mkDemoConnection false 0) = (Ok (), mkDemoConnection true 0) ∧
  with_OpenedConnection demo_open demo_close true body (mkDemoConnection false 0)
  = (Ok (Some ()), mkDemoConnection false 1).
Proof.
  intros body. split; [reflexivity|].
  pose proof (proj1 (with_OpenedConnection_closes demo_open demo_close true body
                       (mkDemoConnection false 0)) _ eq_refl) as H.
  destruct (with_OpenedConnection _ _ _ _ _) as [r c] eqn:E.
  simpl in H. subst c. vm_compute in E. by injection E as <-.
Defined.

Lemma with_OpenedConnection_suppresses_witness :
  let body := λ c : DemoConnection,
    (@Raise unit (OtherError "connection refused"), c) in
  demo_open (mkDemoConnection false 0) = (Ok (), mkDemoConnection true 0) ∧
  body (mkDemoConnection true 0)
    = (Raise (OtherError "connection refused"), mkDemoConnection true 0) ∧
  demo_close (mkDemoConnection true 0) = (Ok (), mkDemoConnection false 0) ∧
  with_OpenedConnection demo_open demo_close true body (mkDemoConnection false 0)
  = (Ok None, mkDemoConnection false 0).
Proof.
  intros body. split; [reflexivity|]. split; [reflexivity|]. split; [reflexivity|].
  exact (with_OpenedConnection_suppresses demo_open demo_close true body
           _ _ _ _ _ eq_refl eq_refl eq_refl).
Defined.

End ConnectionProps.
